(** * A shallow embedding of the vote ledger (utils/blockchain.ts)

    The ledger of the voting client is a hash-linked list of mined blocks
    that is written to and reloaded from a remote document collection.
    This development embeds the [Blockchain] class, the functions
    [recordVoteOnBlockchain], [verifyBlockchain] and [getElectionVotes],
    the store-side [castVote] and the screen handler [handleCastVote],
    and states the properties of the ledger over that embedding.

    The digest function of the crypto library is a section variable: every
    general theorem holds for any digest.  A bit-level SHA-256 is given as
    well, so that concrete chains can be evaluated. *)

From Stdlib Require Import ZArith NArith Ascii String List Lia.
From stdpp Require Import base list strings pretty sorting gmap.

Local Open Scope string_scope.

(** ** SHA-256 on byte strings, rendered as lower-case hexadecimal

    [CryptoJS.SHA256(s).toString()] : the message is the byte sequence of
    the string, the result the 64 hexadecimal characters of the digest.
    Words are natural numbers below 2^32, every addition wraps around. *)
Module SHA256.

Local Open Scope N_scope.

Definition mask32 : N := 0xffffffff.

Definition add32 (x y : N) : N := N.land (x + y) mask32.

Definition rotr (n x : N) : N :=
  N.lor (N.shiftr x n) (N.land (N.shiftl x (32 - n)) mask32).

Definition not32 (x : N) : N := N.lxor x mask32.

Definition Ch (x y z : N) : N := N.lxor (N.land x y) (N.land (not32 x) z).

Definition Maj (x y z : N) : N :=
  N.lxor (N.lxor (N.land x y) (N.land x z)) (N.land y z).

Definition Sigma0 (x : N) : N := N.lxor (N.lxor (rotr 2 x) (rotr 13 x)) (rotr 22 x).
Definition Sigma1 (x : N) : N := N.lxor (N.lxor (rotr 6 x) (rotr 11 x)) (rotr 25 x).
Definition sigma0 (x : N) : N := N.lxor (N.lxor (rotr 7 x) (rotr 18 x)) (N.shiftr x 3).
Definition sigma1 (x : N) : N := N.lxor (N.lxor (rotr 17 x) (rotr 19 x)) (N.shiftr x 10).

(** The round constants are the first thirty-two bits of the fractional
    parts of the cube roots of the first sixty-four primes. *)
Definition is_prime (n : N) : bool :=
  (2 <=? n) && forallb (fun d => negb (n mod N.of_nat d =? 0)) (seq 2 (N.to_nat n - 2)).

Definition first_primes (count : nat) : list N :=
  firstn count (filter (fun n => is_prime n = true) (map N.of_nat (seq 2 400))).

(** The integer cube root, one bit at a time from bit [bits - 1] down. *)
Fixpoint cube_root (bits : nat) (x r : N) : N :=
  match bits with
  | O => r
  | S k =>
      let r' := r + 2 ^ N.of_nat k in
      cube_root k x (if r' * r' * r' <=? x then r' else r)
  end.

Definition K : list N :=
  Eval vm_compute in
    map (fun p => N.land (cube_root 36 (p * 2 ^ 96) 0) mask32) (first_primes 64).

(** The eight working variables, also the chaining value. *)
Record state := State { sa : N; sb : N; sc : N; sd : N; se : N; sf : N; sg : N; sh : N }.

Definition H0 : state :=
  State 0x6a09e667 0xbb67ae85 0x3c6ef372 0xa54ff53a
        0x510e527f 0x9b05688c 0x1f83d9ab 0x5be0cd19.

Definition bytes_of_string (s : string) : list N :=
  map N_of_ascii (list_ascii_of_string s).

(** The 64-bit big-endian length field, most significant byte first. *)
Fixpoint be_bytes (count : nat) (x : N) : list N :=
  match count with
  | O => []
  | S k => N.land (N.shiftr x (8 * N.of_nat k)) 0xff :: be_bytes k x
  end.

Definition pad (msg : list N) : list N :=
  let len := length msg in
  let zeros := ((64 - (len + 9) mod 64) mod 64)%nat in
  msg ++ 0x80 :: repeat 0 zeros ++ be_bytes 8 (8 * N.of_nat len).

Fixpoint words_of_bytes (bs : list N) : list N :=
  match bs with
  | b0 :: b1 :: b2 :: b3 :: rest =>
      N.lor (N.shiftl b0 24) (N.lor (N.shiftl b1 16) (N.lor (N.shiftl b2 8) b3))
      :: words_of_bytes rest
  | _ => []
  end.

(** Message schedule: [recent] holds the sixteen latest words, newest
    first; [extend] emits the remaining forty-eight. *)
Fixpoint extend (count : nat) (recent : list N) : list N :=
  match count with
  | O => []
  | S k =>
      let w := add32 (add32 (sigma1 (nth 1 recent 0)) (nth 6 recent 0))
                     (add32 (sigma0 (nth 14 recent 0)) (nth 15 recent 0)) in
      w :: extend k (w :: firstn 15 recent)
  end.

Definition schedule (block : list N) : list N :=
  block ++ extend 48 (rev block).

Definition round (st : state) (kw : N * N) : state :=
  let '(k, w) := kw in
  let t1 := add32 (add32 (add32 (sh st) (Sigma1 (se st)))
                         (add32 (Ch (se st) (sf st) (sg st)) k)) w in
  let t2 := add32 (Sigma0 (sa st)) (Maj (sa st) (sb st) (sc st)) in
  State (add32 t1 t2) (sa st) (sb st) (sc st)
        (add32 (sd st) t1) (se st) (sf st) (sg st).

Definition compress (st : state) (block : list N) : state :=
  let r := fold_left round (combine K (schedule block)) st in
  State (add32 (sa st) (sa r)) (add32 (sb st) (sb r))
        (add32 (sc st) (sc r)) (add32 (sd st) (sd r))
        (add32 (se st) (se r)) (add32 (sf st) (sf r))
        (add32 (sg st) (sg r)) (add32 (sh st) (sh r)).

Fixpoint blocks (count : nat) (ws : list N) (st : state) : state :=
  match count with
  | O => st
  | S k => blocks k (skipn 16 ws) (compress st (firstn 16 ws))
  end.

Definition hex_digit (x : N) : ascii :=
  match x with
  | 0 => "0" | 1 => "1" | 2 => "2" | 3 => "3" | 4 => "4" | 5 => "5"
  | 6 => "6" | 7 => "7" | 8 => "8" | 9 => "9" | 10 => "a" | 11 => "b"
  | 12 => "c" | 13 => "d" | 14 => "e" | _ => "f"
  end%char.

Definition nibble (w : N) (i : N) : ascii :=
  hex_digit (N.land (N.shiftr w (4 * i)) 0xf).

Definition hex_word (w : N) (tail : string) : string :=
  String (nibble w 7) (String (nibble w 6) (String (nibble w 5)
  (String (nibble w 4) (String (nibble w 3) (String (nibble w 2)
  (String (nibble w 1) (String (nibble w 0) tail))))))).

Definition hex_state (st : state) : string :=
  hex_word (sa st) (hex_word (sb st) (hex_word (sc st) (hex_word (sd st)
  (hex_word (se st) (hex_word (sf st) (hex_word (sg st) (hex_word (sh st) EmptyString))))))).

Definition sha256 (s : string) : string :=
  let ws := words_of_bytes (pad (bytes_of_string s)) in
  hex_state (blocks (length ws / 16)%nat ws H0).

End SHA256.


(** ** JSON.stringify on the payloads the ledger carries *)

Definition dquote : ascii := "034"%char.
Definition backslash : ascii := "092"%char.

(** One character of a quoted JSON string (QuoteJSONString): the seven
    short escapes, [\u00xx] for the other control characters, the
    character itself otherwise. *)
Definition json_escape_char (c : ascii) : string :=
  match N_of_ascii c with
  | 8%N => "\b"
  | 9%N => "\t"
  | 10%N => "\n"
  | 12%N => "\f"
  | 13%N => "\r"
  | 34%N => String backslash (String dquote EmptyString)
  | 92%N => String backslash (String backslash EmptyString)
  | n =>
      if (n <? 32)%N
      then "\u00" ++ String (SHA256.nibble n 1) (String (SHA256.nibble n 0) EmptyString)
      else String c EmptyString
  end.

Fixpoint json_escape (s : string) : string :=
  match s with
  | EmptyString => EmptyString
  | String c rest => json_escape_char c ++ json_escape rest
  end.

Definition json_string (s : string) : string :=
  String dquote (json_escape s ++ String dquote EmptyString).

(** The two object shapes the source builds: the genesis marker
    [{ message }] and the vote record of [recordVoteOnBlockchain]. *)
Module Vote.
Record t := Make {
  type : string;
  electionId : string;
  candidateId : Z;
  voterIdHash : string;
  voteHash : string;
  timestamp : Z
}.
End Vote.

Inductive Data :=
  | Genesis (message : string)
  | VoteData (v : Vote.t).

Definition JSON_stringify (d : Data) : string :=
  match d with
  | Genesis message =>
      "{" ++ json_string "message" ++ ":" ++ json_string message ++ "}"
  | VoteData v =>
      "{" ++ json_string "type" ++ ":" ++ json_string (Vote.type v) ++
      "," ++ json_string "electionId" ++ ":" ++ json_string (Vote.electionId v) ++
      "," ++ json_string "candidateId" ++ ":" ++ pretty (Vote.candidateId v) ++
      "," ++ json_string "voterIdHash" ++ ":" ++ json_string (Vote.voterIdHash v) ++
      "," ++ json_string "voteHash" ++ ":" ++ json_string (Vote.voteHash v) ++
      "," ++ json_string "timestamp" ++ ":" ++ pretty (Vote.timestamp v) ++ "}"
  end.

(** ** Blocks and the [Blockchain] class *)

Record Block := {
  index : Z;
  timestamp : Z;
  data : Data;
  previousHash : string;
  hash : string;
  nonce : Z
}.

Definition set_hash (h : string) (b : Block) : Block :=
  {| index := index b; timestamp := timestamp b; data := data b;
     previousHash := previousHash b; hash := h; nonce := nonce b |}.

Definition set_nonce (n : Z) (b : Block) : Block :=
  {| index := index b; timestamp := timestamp b; data := data b;
     previousHash := previousHash b; hash := hash b; nonce := n |}.

(** [ENV.blockchain] *)
Module ENV.
Record blockchain := {
  difficulty : nat;
  genesisMessage : string
}.
End ENV.

(** [Array(n + 1).join("0")] *)
Fixpoint zeros (n : nat) : string :=
  match n with
  | O => EmptyString
  | S k => String "0" (zeros k)
  end.

(** The digest of the crypto library, [CryptoJS.SHA256(_).toString()]:
    a function from strings to strings, whatever it computes. *)
Class HashFunction := Digest : string -> string.

(** The digest the application runs with. *)
Definition SHA256_hex : HashFunction := SHA256.sha256.

Section Ledger.

Context `{HashFunction}.

(** The string handed to the digest: the five fields concatenated, the
    numbers in decimal. *)
Definition preimage (block : Block) : string :=
  pretty (index block) ++ previousHash block ++ pretty (timestamp block) ++
  JSON_stringify (data block) ++ pretty (nonce block).

Definition calculateHash (block : Block) : string :=
  Digest (preimage block).

(** The loop of [mineBlock] at difficulty [d]; [fuel] bounds the number of
    iterations, and [None] is a loop still running when the bound is
    reached. *)
Fixpoint mineBlock (d : nat) (fuel : nat) (block : Block) : option Block :=
  let target := zeros d in
  if bool_decide (substring 0 d (hash block) ≠ target) then
    match fuel with
    | O => None
    | S fuel' =>
        let block1 := set_nonce (nonce block + 1) block in
        let block2 := set_hash (calculateHash block1) block1 in
        mineBlock d fuel' block2
    end
  else Some block.

(** The loop of [isChainValid], [i] running from 1 to [length chain - 1];
    [count] is the number of iterations left. *)
Fixpoint isChainValid_loop (chain : list Block) (i count : nat) : bool :=
  match count with
  | O => true
  | S count' =>
      match chain !! i, chain !! (i - 1)%nat with
      | Some currentBlock, Some previousBlock =>
          if bool_decide (hash currentBlock ≠ calculateHash currentBlock) then false
          else if bool_decide (previousHash currentBlock ≠ hash previousBlock) then false
          else isChainValid_loop chain (S i) count'
      | _, _ => true
      end
  end.

Definition isChainValid (chain : list Block) : bool :=
  isChainValid_loop chain 1 (length chain - 1).

End Ledger.

(** ** The document store, the clock and the effects of the async functions *)

(** The field [candidates] of an election document, as far as [castVote]
    reads and writes it: the [voteCount] of each entry.  [createElection]
    writes an array, the counts by position.  A field path of the store
    names the keys of maps, not the positions of arrays, so the document
    may also hold a map there, the counts by key; the key is the number
    that [candidateId - 1] prints. *)
Inductive Candidates :=
  | CandidateArray (counts : list Z)
  | CandidateMap (counts : gmap Z Z).

(** An election document: [candidates] and the [voters] array. *)
Record Election := {
  candidates : Candidates;
  voters : list string
}.

(** [electionData.candidates[k].voteCount]; [None] stands for an entry
    that is [undefined]. *)
Definition candidate_voteCount (c : Candidates) (k : Z) : option Z :=
  match c with
  | CandidateArray counts =>
      if bool_decide (0 <= k)%Z then counts !! Z.to_nat k else None
  | CandidateMap counts => counts !! k
  end.

(** An update through the field path [candidates.<k>.voteCount]: the
    entry of the key [k] of a map is set and the other keys are kept; a
    field that is not a map is replaced by a map with that key alone. *)
Definition set_candidate_voteCount (k count : Z) (c : Candidates) : Candidates :=
  match c with
  | CandidateArray _ => CandidateMap {[ k := count ]}
  | CandidateMap counts => CandidateMap (<[ k := count ]> counts)
  end.

(** A document of the collection [transactions]. *)
Record Transaction := {
  tx_electionId : string;
  tx_candidateId : Z;
  tx_voterId : string;
  tx_voteHash : string;
  tx_timestamp : Z
}.

(** The world outside the process.  [blockchain_docs] is the collection
    [blockchain], each document with its id.  [clock] lists the readings
    that the coming calls of [new Date().getTime()] return.  [faults]
    lists the fate of the coming store calls: [Some msg] rejects the call
    with an error of that message, [None] lets it through; a missing
    entry lets it through. *)
Record World := {
  blockchain_docs : list (string * Block);
  elections : list (string * Election);
  transactions : list Transaction;
  clock : list Z;
  faults : list (option string)
}.

Inductive Outcome (A : Type) :=
  | Ret (a : A)
  | Throw (message : string)
  | Unfinished.
Arguments Ret {A} a.
Arguments Throw {A} message.
Arguments Unfinished {A}.

Definition M (A : Type) : Type := World -> Outcome A * World.

Definition ret {A} (a : A) : M A := fun w => (Ret a, w).
Definition throw {A} (message : string) : M A := fun w => (Throw message, w).
Definition unfinished {A} : M A := fun w => (Unfinished, w).

Definition bind {A B} (m : M A) (k : A -> M B) : M B :=
  fun w =>
    match m w with
    | (Ret a, w') => k a w'
    | (Throw message, w') => (Throw message, w')
    | (Unfinished, w') => (Unfinished, w')
    end.

(** [try { m } catch (error) { handler }] *)
Definition try_catch {A} (m : M A) (handler : string -> M A) : M A :=
  fun w =>
    match m w with
    | (Throw message, w') => handler message w'
    | r => r
    end.

Global Instance M_ret : MRet M := @ret.
Global Instance M_bind : MBind M := fun A B k m => bind m k.

Definition advance_clock (w : World) : World :=
  {| blockchain_docs := blockchain_docs w; elections := elections w;
     transactions := transactions w; clock := tl (clock w);
     faults := faults w |}.

Definition next_fault (w : World) : World :=
  {| blockchain_docs := blockchain_docs w; elections := elections w;
     transactions := transactions w; clock := clock w;
     faults := tl (faults w) |}.

Definition set_blockchain_docs (docs : list (string * Block)) (w : World) : World :=
  {| blockchain_docs := docs; elections := elections w;
     transactions := transactions w; clock := clock w;
     faults := faults w |}.

Definition set_elections (docs : list (string * Election)) (w : World) : World :=
  {| blockchain_docs := blockchain_docs w; elections := docs;
     transactions := transactions w; clock := clock w;
     faults := faults w |}.

Definition set_transactions (docs : list Transaction) (w : World) : World :=
  {| blockchain_docs := blockchain_docs w; elections := elections w;
     transactions := docs; clock := clock w;
     faults := faults w |}.

(** [new Date().getTime()] *)
Definition getTime : M Z :=
  fun w => (Ret (hd 0%Z (clock w)), advance_clock w).

(** Every store call first meets the next entry of [faults]. *)
Definition store_call : M unit :=
  fun w =>
    match faults w with
    | Some message :: _ => (Throw message, next_fault w)
    | _ => (Ret tt, next_fault w)
    end.

(** Replace the document of id [key], or add it. *)
Fixpoint upsert {V} (key : string) (v : V) (docs : list (string * V))
  : list (string * V) :=
  match docs with
  | [] => [(key, v)]
  | (k, v0) :: rest =>
      if bool_decide (k = key) then (k, v) :: rest
      else (k, v0) :: upsert key v rest
  end.

Fixpoint find_doc {V} (key : string) (docs : list (string * V)) : option V :=
  match docs with
  | [] => None
  | (k, v) :: rest => if bool_decide (k = key) then Some v else find_doc key rest
  end.

(** [orderBy("index")]: ascending by the field [index]. *)
Definition index_le (x y : Block) : Prop := (index x <= index y)%Z.

Global Instance index_le_dec : RelDecision index_le.
Proof. intros x y. unfold index_le. apply _. Defined.

Definition order_by_index (docs : list (string * Block)) : list Block :=
  merge_sort index_le docs.*2.

(** [getDocs(query(collection(db, "blockchain"), orderBy("index")))].
    The conversion of [timestamp] to the date type of the store on the
    way in and back to milliseconds on the way out is the identity, and
    the store hands back [data] as it was written, its keys in the order
    of the write. *)
Definition getDocs_blockchain : M (list Block) :=
  bind store_call (fun _ w => (Ret (order_by_index (blockchain_docs w)), w)).

(** [setDoc(doc(db, "blockchain", key), block)] *)
Definition setDoc_blockchain (key : string) (block : Block) : M unit :=
  bind store_call (fun _ w =>
    (Ret tt, set_blockchain_docs (upsert key block (blockchain_docs w)) w)).

(** [getDoc(doc(db, "elections", electionId))] *)
Definition getDoc_election (electionId : string) : M (option Election) :=
  bind store_call (fun _ w => (Ret (find_doc electionId (elections w)), w)).

(** [setDoc(doc(collection(db, "transactions")), t)] *)
Definition setDoc_transaction (t : Transaction) : M unit :=
  bind store_call (fun _ w =>
    (Ret tt, set_transactions (transactions w ++ [t]) w)).

(** [updateDoc(electionRef, ...)] of [castVote]: the field path
    [candidates.<k>.voteCount] is set to [count], and [voterId] joins
    [voters] ([arrayUnion]). *)
Definition updateDoc_election (electionId : string) (k : Z)
    (count : Z) (voterId : string) : M unit :=
  bind store_call (fun _ w =>
    match find_doc electionId (elections w) with
    | None => (Throw "No document to update", w)
    | Some e =>
        let e' := {| candidates := set_candidate_voteCount k count (candidates e);
                     voters := if bool_decide (voterId ∈ voters e)
                               then voters e else voters e ++ [voterId] |} in
        (Ret tt, set_elections (upsert electionId e' (elections w)) w)
    end).

(** ** The methods of [Blockchain] and the exported functions *)

(** An instance of the class. *)
Record Blockchain := {
  chain : list Block;
  difficulty : nat
}.

Definition set_chain (c : list Block) (self : Blockchain) : Blockchain :=
  {| chain := c; difficulty := difficulty self |}.

(** [{ success, transactionHash?, error? }] *)
Record VoteReceipt := {
  success : bool;
  transactionHash : option string;
  error : option string
}.

(** [{ valid, blockCount }] *)
Record VerifyReport := {
  valid : bool;
  blockCount : nat
}.

(** An entry of the result of [getElectionVotes]. *)
Record VoteRecord := {
  blockIndex : Z;
  blockHash : string;
  vr_candidateId : Z;
  vr_timestamp : Z;
  vr_voteHash : string
}.

(** What [initializeBlockchain] returns: [{ success, message?, error? }]. *)
Record InitReport := {
  init_success : bool;
  init_message : option string;
  init_error : option string
}.

(** What [castVote] returns: [{ success, transactionId }] or [{ error }];
    the generated transaction id is left out. *)
Inductive CastResult :=
  | CastSuccess
  | CastError (message : string).

(** [x || fallback] on an optional string: the empty string is falsy. *)
Definition or_default (x : option string) (fallback : string) : string :=
  match x with
  | Some s => if bool_decide (s = EmptyString) then fallback else s
  | None => fallback
  end.

(** What the voting screen shows at the end of [handleCastVote]. *)
Inductive Alert :=
  | VoteCastSuccessfully
  | AlertError (message : string).

Section Effects.

Context `{HashFunction}.
Variable env : ENV.blockchain.

(** Bound on the iterations of each run of the mining loop. *)
Variable fuel : nat.

(** [mineBlock] on an object: the loop either ends with the sealed block
    or is still running when the fuel is spent. *)
Definition mine (self : Blockchain) (block : Block) : M Block :=
  match mineBlock (difficulty self) fuel block with
  | Some sealed => mret sealed
  | None => unfinished
  end.

(** The object literal of [createGenesisBlock], before mining. *)
Definition genesisBlock (now : Z) : Block :=
  {| index := 0; timestamp := now;
     data := Genesis (ENV.genesisMessage env);
     previousHash := "0"; hash := EmptyString; nonce := 0 |}.

Definition createGenesisBlock (self : Blockchain) : M Blockchain :=
  now ← getTime;
  sealed ← mine self (genesisBlock now);
  mret (set_chain (chain self ++ [sealed]) self).

(** [new Blockchain()] *)
Definition new_Blockchain : M Blockchain :=
  let self := {| chain := []; difficulty := ENV.difficulty env |} in
  if bool_decide (length (chain self) = 0%nat)
  then createGenesisBlock self
  else mret self.

(** [this.chain[this.chain.length - 1]] *)
Definition getLatestBlock (self : Blockchain) : option Block :=
  chain self !! (length (chain self) - 1)%nat.

Definition saveBlockToFirebase (block : Block) : M unit :=
  try_catch
    (setDoc_blockchain (pretty (index block)) block)
    (fun _ => mret tt).

(** The object literal of [addBlock], before mining. *)
Definition newBlock (previousBlock : Block) (now : Z) (payload : Data) : Block :=
  {| index := index previousBlock + 1; timestamp := now;
     data := payload; previousHash := hash previousBlock;
     hash := EmptyString; nonce := 0 |}.

Definition addBlock (payload : Data) (self : Blockchain) : M (Block * Blockchain) :=
  match getLatestBlock self with
  | None => throw "Cannot read properties of undefined (reading 'index')"
  | Some previousBlock =>
      now ← getTime;
      sealed ← mine self (newBlock previousBlock now payload);
      let self' := set_chain (chain self ++ [sealed]) self in
      saveBlockToFirebase sealed;;
      mret (sealed, self')
  end.

(** A fresh ledger and [addBlock] for each payload in turn. *)
Fixpoint addBlocks (payloads : list Data) (self : Blockchain) : M Blockchain :=
  match payloads with
  | [] => mret self
  | payload :: rest =>
      '(_, self') ← addBlock payload self;
      addBlocks rest self'
  end.

Definition fresh_ledger (payloads : list Data) : M Blockchain :=
  blockchain ← new_Blockchain;
  addBlocks payloads blockchain.

Definition loadFromFirebase (self : Blockchain) : M Blockchain :=
  try_catch
    (loaded ← getDocs_blockchain;
     let self1 := set_chain loaded self in
     if bool_decide (length (chain self1) = 0%nat)
     then createGenesisBlock self1
     else mret self1)
    (fun _ => createGenesisBlock (set_chain [] self)).

Definition createVoteHash (electionId : string) (candidateId : Z)
    (voterId : string) : M string :=
  now ← getTime;
  mret (Digest (electionId ++ "|" ++ pretty candidateId ++ "|" ++
                voterId ++ "|" ++ pretty now)).

Definition recordVoteOnBlockchain (electionId : string) (candidateId : Z)
    (voterId : string) : M VoteReceipt :=
  try_catch
    (blockchain ← new_Blockchain;
     blockchain ← loadFromFirebase blockchain;
     voteHash ← createVoteHash electionId candidateId voterId;
     now ← getTime;
     let voteData :=
       VoteData (Vote.Make "VOTE" electionId candidateId
                           (Digest voterId) voteHash now) in
     '(sealed, _) ← addBlock voteData blockchain;
     mret {| success := true; transactionHash := Some (hash sealed);
             error := None |})
    (fun message =>
       mret {| success := false; transactionHash := None;
               error := Some message |}).

Definition verifyBlockchain : M VerifyReport :=
  try_catch
    (blockchain ← new_Blockchain;
     blockchain ← loadFromFirebase blockchain;
     mret {| valid := isChainValid (chain blockchain);
             blockCount := length (chain blockchain) |})
    (fun _ => mret {| valid := false; blockCount := 0 |}).

(** The filter and the projection of [getElectionVotes]. *)
Definition is_election_vote (electionId : string) (block : Block) : bool :=
  match data block with
  | VoteData v =>
      bool_decide (Vote.type v = "VOTE") && bool_decide (Vote.electionId v = electionId)
  | Genesis _ => false
  end.

Definition vote_record (block : Block) : option VoteRecord :=
  match data block with
  | VoteData v =>
      Some {| blockIndex := index block; blockHash := hash block;
              vr_candidateId := Vote.candidateId v;
              vr_timestamp := Vote.timestamp v;
              vr_voteHash := Vote.voteHash v |}
  | Genesis _ => None
  end.

Definition getElectionVotes (electionId : string) : M (list VoteRecord) :=
  try_catch
    (blockchain ← new_Blockchain;
     blockchain ← loadFromFirebase blockchain;
     let electionVotes := filter (fun b => is_election_vote electionId b = true)
                                 (chain blockchain) in
     mret (omap vote_record electionVotes))
    (fun _ => mret []).

(** [castVote] of the store helpers. *)
Definition castVote (electionId : string) (candidateId : Z)
    (voterId : string) (voteHash : string) : M CastResult :=
  try_catch
    (electionDoc ← getDoc_election electionId;
     match electionDoc with
     | None => mret (CastError "Election not found")
     | Some electionData =>
         if bool_decide (voterId ∈ voters electionData)
         then mret (CastError "You have already voted in this election")
         else
           now ← getTime;
           setDoc_transaction
             {| tx_electionId := electionId; tx_candidateId := candidateId;
                tx_voterId := voterId; tx_voteHash := voteHash;
                tx_timestamp := now |};;
           match candidate_voteCount (candidates electionData)
                                     (candidateId - 1) with
           | None => throw "Cannot read properties of undefined (reading 'voteCount')"
           | Some count =>
               updateDoc_election electionId (candidateId - 1)
                                  (count + 1) voterId;;
               mret CastSuccess
           end
     end)
    (fun message => mret (CastError message)).

(** [handleCastVote] of the voting screen, with a candidate selected and
    the election and the user present. *)
Definition handleCastVote (electionId : string) (selectedCandidate : Z)
    (uid : string) : M Alert :=
  try_catch
    (voteHash ← createVoteHash electionId selectedCandidate uid;
     blockchainResult ← recordVoteOnBlockchain electionId selectedCandidate uid;
     if negb (success blockchainResult)
     then throw (or_default (error blockchainResult)
                            "Failed to record vote on blockchain")
     else
       result ← castVote electionId selectedCandidate uid voteHash;
       match result with
       | CastError message =>
           if bool_decide (message = EmptyString)
           then mret VoteCastSuccessfully
           else throw message
       | CastSuccess => mret VoteCastSuccessfully
       end)
    (fun message => mret (AlertError message)).

(** [initializeBlockchain]: the genesis block is mined and saved only when
    the ordered query finds the collection empty. *)
Definition initializeBlockchain : M InitReport :=
  try_catch
    (querySnapshot ← getDocs_blockchain;
     if bool_decide (length querySnapshot = 0%nat)
     then
       blockchain ← new_Blockchain;
       match chain blockchain !! 0%nat with
       | Some first => saveBlockToFirebase first
       | None => mret tt
       end;;
       mret {| init_success := true;
               init_message := Some "Blockchain initialized with genesis block";
               init_error := None |}
     else
       mret {| init_success := true;
               init_message := Some "Blockchain already initialized";
               init_error := None |})
    (fun message =>
       mret {| init_success := false; init_message := None;
               init_error := Some message |}).

End Effects.

(** ** The results screen: [verifyVoteCounts] *)

(** [Candidate] of the results screen. *)
Record Candidate := {
  id : Z;
  name : string;
  info : string;
  voteCount : Z
}.

(** The [Map] filled by [votes.forEach]. *)
Definition count_vote (blockchainVoteCounts : gmap Z Z) (vote : VoteRecord)
  : gmap Z Z :=
  let currentCount := default 0%Z (blockchainVoteCounts !! vr_candidateId vote) in
  <[vr_candidateId vote := (currentCount + 1)%Z]> blockchainVoteCounts.

(** The loop over [candidates]. *)
Fixpoint compare_counts (blockchainVoteCounts : gmap Z Z)
    (candidates : list Candidate) : bool :=
  match candidates with
  | [] => true
  | candidate :: rest =>
      let blockchainCount := default 0%Z (blockchainVoteCounts !! id candidate) in
      if bool_decide (blockchainCount <> voteCount candidate) then false
      else compare_counts blockchainVoteCounts rest
  end.

Definition verifyVoteCounts (candidates : list Candidate)
    (votes : list VoteRecord) : bool :=
  if bool_decide (length candidates = 0%nat) then false
  else compare_counts (foldl count_vote ∅ votes) candidates.

(** ** Notions used to state the properties *)

(** The test of the mining loop: the first [d] characters of the hash are
    the [d] zeros of the target. *)
Definition meets_target (d : nat) (h : string) : Prop :=
  substring 0 d h = zeros d.

Global Instance meets_target_dec d h : Decision (meets_target d h).
Proof. unfold meets_target. apply _. Defined.

Fixpoint leading_zeros (h : string) : nat :=
  match h with
  | String "0" rest => S (leading_zeros rest)
  | _ => O
  end.

(** The block with nonce [n] and the digest that goes with it. *)
Definition with_nonce `{HashFunction} (block : Block) (n : Z) : Block :=
  set_hash (calculateHash (set_nonce n block)) (set_nonce n block).

(** The validator as the specification words it, to compare with
    [isChainValid]: from index 1 on, the stored hash is the recomputed
    digest, the hash is on target, [previousHash] is the hash of the
    predecessor and [index] its index plus one; block 0 has
    [previousHash] ["0"] and [index] 0. *)
Fixpoint spec_walk `{HashFunction} (d : nat) (prev : Block) (rest : list Block) : bool :=
  match rest with
  | [] => true
  | cur :: rest' =>
      bool_decide (hash cur = calculateHash cur) &&
      bool_decide (meets_target d (hash cur)) &&
      bool_decide (previousHash cur = hash prev) &&
      bool_decide (index cur = index prev + 1)%Z &&
      spec_walk d cur rest'
  end.

Definition spec_isValid `{HashFunction} (d : nat) (chain : list Block) : bool :=
  match chain with
  | [] => true
  | genesis :: rest =>
      bool_decide (previousHash genesis = "0") &&
      bool_decide (index genesis = 0)%Z &&
      spec_walk d genesis rest
  end.

(** Overwriting one field of a block; the stored [hash] is not among
    them. *)
Inductive Mutation :=
  | SetIndex (v : Z)
  | SetTimestamp (v : Z)
  | SetData (v : Data)
  | SetPreviousHash (v : string)
  | SetNonce (v : Z).

Definition mutate (m : Mutation) (b : Block) : Block :=
  match m with
  | SetIndex v =>
      {| index := v; timestamp := timestamp b; data := data b;
         previousHash := previousHash b; hash := hash b; nonce := nonce b |}
  | SetTimestamp v =>
      {| index := index b; timestamp := v; data := data b;
         previousHash := previousHash b; hash := hash b; nonce := nonce b |}
  | SetData v =>
      {| index := index b; timestamp := timestamp b; data := v;
         previousHash := previousHash b; hash := hash b; nonce := nonce b |}
  | SetPreviousHash v =>
      {| index := index b; timestamp := timestamp b; data := data b;
         previousHash := v; hash := hash b; nonce := nonce b |}
  | SetNonce v => set_nonce v b
  end.

(** Reading back the first character of an escaped JSON string; used to
    show that [json_escape] loses nothing. *)
Fixpoint position (c : ascii) (s : string) : option N :=
  match s with
  | EmptyString => None
  | String x rest =>
      if bool_decide (x = c) then Some 0%N else N.succ <$> position c rest
  end.

Definition hex_value (c : ascii) : option N := position c "0123456789abcdef".

Definition unescape_head (s : string) : option (ascii * string) :=
  match s with
  | EmptyString => None
  | String c rest =>
      if bool_decide (c = backslash) then
        match rest with
        | String "b" rest' => Some ("008"%char, rest')
        | String "t" rest' => Some ("009"%char, rest')
        | String "n" rest' => Some ("010"%char, rest')
        | String "f" rest' => Some ("012"%char, rest')
        | String "r" rest' => Some ("013"%char, rest')
        | String "u" (String "0" (String "0" (String h (String l rest')))) =>
            match hex_value h, hex_value l with
            | Some a, Some b => Some (ascii_of_N (16 * a + b), rest')
            | _, _ => None
            end
        | String x rest' =>
            if bool_decide (x = dquote) then Some (dquote, rest')
            else if bool_decide (x = backslash) then Some (backslash, rest')
            else None
        | EmptyString => None
        end
      else if bool_decide (c = dquote) then None
      else Some (c, rest)
  end.

(** The characters of a decimal numeral. *)
Definition is_numeric (c : ascii) : bool :=
  let n := N_of_ascii c in
  ((48 <=? n)%N && (n <=? 57)%N) || (n =? 45)%N.

Fixpoint all_numeric (s : string) : bool :=
  match s with
  | EmptyString => true
  | String c rest => is_numeric c && all_numeric rest
  end.

(** [blocks] were appended one after the other behind [prev] at
    difficulty [d]: each has the next index and names the hash of the
    block before it; its hash is the digest of its fields, or, if the
    mining loop never ran, still empty. *)
Fixpoint appended `{HashFunction} (d : nat) (prev : Block) (blocks : list Block) : Prop :=
  match blocks with
  | [] => True
  | b :: rest =>
      index b = (index prev + 1)%Z /\
      previousHash b = hash prev /\
      ((1 <= d)%nat -> hash b = calculateHash b) /\
      (hash b = EmptyString \/ hash b = calculateHash b) /\
      appended d b rest
  end.

(** ** Concrete configurations, blocks and worlds

    The values below are used to run the functions with SHA-256. *)

(** The configuration of the hard-coded environment. *)
Definition default_env : ENV.blockchain :=
  {| ENV.difficulty := 2;
     ENV.genesisMessage := "Blockchain Voting System Genesis Block" |}.

(** [BLOCKCHAIN_DIFFICULTY=0]. *)
Definition zero_env : ENV.blockchain :=
  {| ENV.difficulty := 0;
     ENV.genesisMessage := "Blockchain Voting System Genesis Block" |}.

(** A genesis block as [initializeBlockchain] stores it. *)
Definition stored_genesis : Block :=
  {| index := 0; timestamp := 1700000000019;
     data := Genesis "Blockchain Voting System Genesis Block";
     previousHash := "0";
     hash := "000fe79e1571f9c642f12b40017f3b45932e258312f44ce0d207f7b5ae1068c3";
     nonce := 3 |}.

(** The vote block that [recordVoteOnBlockchain "E1" 1 "U1"] mines on
    [stored_genesis] with the clock of [world_write_rejected]. *)
Definition first_vote : Block :=
  {| index := 1; timestamp := 1700000100319;
     data := VoteData (Vote.Make "VOTE" "E1" 1
       "316ca0efda6296d8f2c11d1e20890d220cec4266a0c16fbbef324c004688468a"
       "843c6ade2296d872186015bb840b3d1d0333d9bcfe9687dcce079d78eef2b501"
       1700000100222);
     previousHash := "000fe79e1571f9c642f12b40017f3b45932e258312f44ce0d207f7b5ae1068c3";
     hash := "00262584dce03c3d08c816b00655061c87a2bc982e4de558b5f4a89e6b075e49";
     nonce := 1 |}.

(** The block of a second vote of the same voter, mined on [first_vote]. *)
Definition second_vote : Block :=
  {| index := 2; timestamp := 1700000160344;
     data := VoteData (Vote.Make "VOTE" "E1" 1
       "316ca0efda6296d8f2c11d1e20890d220cec4266a0c16fbbef324c004688468a"
       "18ee0f4a38b30c076f326106f60d3965d3dd7637f1a903173eae0092da58a26d"
       1700000160328);
     previousHash := "00262584dce03c3d08c816b00655061c87a2bc982e4de558b5f4a89e6b075e49";
     hash := "004d0708aa2cf33092ef116d93f47f85c8017aaf11676b8da5504a037c94aa96";
     nonce := 4 |}.

Definition world (docs : list (string * Block)) (polls : list (string * Election))
    (readings : list Z) (fates : list (option string)) : World :=
  {| blockchain_docs := docs; elections := polls; transactions := [];
     clock := readings; faults := fates |}.


(** The store holds two blocks and rejects the load. *)
Definition world_load_rejected : World :=
  world [("0", stored_genesis); ("1", first_vote)] []
        [1700000300065; 1700000300123; 1700000300130; 1700000300131;
         1700000300185]%Z
        [Some "unavailable"].

(** The store holds the genesis block and rejects nothing. *)
Definition world_two_votes : World :=
  world [("0", stored_genesis)] []
        [1700000100216; 1700000100221; 1700000100222; 1700000100319;
         1700000160322; 1700000160327; 1700000160328; 1700000160344]%Z
        [].

(** The same store with the election ["E1"] of two candidates, before the
    voting screen is used twice by the voter ["U1"]. *)
Definition world_voting_screen : World :=
  world [("0", stored_genesis)]
        [("E1", {| candidates := CandidateArray [0; 0]%Z; voters := [] |})]
        [1700000500000; 1700000500050; 1700000500055; 1700000500056;
         1700000500058; 1700000500068; 1700000501068; 1700000501126;
         1700000501131; 1700000501132; 1700000501166; 1700000502086]%Z
        [].

(** A payload and the world in which a fresh ledger appends it. *)
Definition sample_vote : Data :=
  VoteData (Vote.Make "VOTE" "E1" 1
    "316ca0efda6296d8f2c11d1e20890d220cec4266a0c16fbbef324c004688468a"
    "323ccb9cfc0f68d13794968fed7029ac6a96b6d879948d5524435b70ca0929a5"
    1700000400101).

Definition world_fresh : World :=
  world [] [] [1700000400036; 1700000400420]%Z [].

Definition fresh_genesis : Block :=
  {| index := 0; timestamp := 1700000400036;
     data := Genesis "Blockchain Voting System Genesis Block";
     previousHash := "0";
     hash := "001343539949ca16e0ac9f261e61c1ff6232611803caf5d032ac9de14c17279d";
     nonce := 4 |}.

Definition fresh_vote : Block :=
  {| index := 1; timestamp := 1700000400420;
     data := sample_vote;
     previousHash := "001343539949ca16e0ac9f261e61c1ff6232611803caf5d032ac9de14c17279d";
     hash := "007d0b80b5c90bf0f66552df0c0482fbace0ec9d8ec6d989238fa17bca12a91b";
     nonce := 2 |}.

(** The same payload with the other candidate. *)
Definition tampered_vote : Data :=
  VoteData (Vote.Make "VOTE" "E1" 2
    "316ca0efda6296d8f2c11d1e20890d220cec4266a0c16fbbef324c004688468a"
    "323ccb9cfc0f68d13794968fed7029ac6a96b6d879948d5524435b70ca0929a5"
    1700000400101).

(** A chain that no ledger built: block 0 has index 7 and a previous hash
    other than ["0"], block 1 has index 3 and a hash off target, but
    stores the digest of its fields and the hash of block 0. *)
Definition unchecked_chain : list Block :=
  [ {| index := 7; timestamp := 1700000000000; data := Genesis "x";
       previousHash := "abc"; hash := "h0"; nonce := 0 |};
    {| index := 3; timestamp := 1700000000001; data := Genesis "y";
       previousHash := "h0";
       hash := "d6789435b47b5da379d246a3f523e12d69c7c4eed93105d3ddba08f81861ad25";
       nonce := 0 |} ].

(** The store holds three blocks and rejects nothing. *)
Definition world_three_blocks : World :=
  world [("0", stored_genesis); ("1", first_vote); ("2", second_vote)] []
        [1700000502086%Z] [].



(** The election ["E1"] before and after the vote of ["U1"]. *)
Definition election_open : Election :=
  {| candidates := CandidateArray [0; 0]%Z; voters := [] |}.

Definition election_voted : Election :=
  {| candidates := CandidateMap {[ 0%Z := 1%Z ]}; voters := ["U1"] |}.

Definition world_election (e : Election) (fates : list (option string)) : World :=
  world [("0", stored_genesis)] [("E1", e)]
        [1700000100200; 1700000100216; 1700000100221; 1700000100222;
         1700000100319]%Z fates.


(** An empty store that rejects nothing, with the clock of a vote and of
    a verification after it. *)
Definition world_no_stored_genesis : World :=
  world [] []
        [1700000300065; 1700000300123; 1700000300130; 1700000300131;
         1700000300185; 1700000300404]%Z [].

(** The vote block that [recordVoteOnBlockchain "E1" 2 "U2"] mines in
    that world, on the genesis block that the load made up. *)
Definition lone_vote : Block :=
  {| index := 1; timestamp := 1700000300185;
     data := VoteData (Vote.Make "VOTE" "E1" 2
       "325a90f389d8331f6ccd8da8b14844423eeff4ba736c5c03d2d034e64ad63a3d"
       "a0a1f2252d59ccf1e84dc96385fe465666b32e1014c8656ee4bf4a90374351e1"
       1700000300131);
     previousHash := "00619aab5ce431ab17306a0249e353fa4b9ca15b5a3851f215c6595b15b49e37";
     hash := "002ad9d0a7f95f25cecae357d55d67d6b5983468f0b630b7783fa7affadd0421";
     nonce := 3 |}.

(** Its payload with the other candidate. *)
Definition lone_vote_altered : Data :=
  VoteData (Vote.Make "VOTE" "E1" 1
    "325a90f389d8331f6ccd8da8b14844423eeff4ba736c5c03d2d034e64ad63a3d"
    "a0a1f2252d59ccf1e84dc96385fe465666b32e1014c8656ee4bf4a90374351e1"
    1700000300131).

(** The store holds the genesis block and rejects the third call, the
    load of a second vote. *)
Definition world_second_load_rejected : World :=
  world [("0", stored_genesis)] []
        [1700000100216; 1700000100221; 1700000100222; 1700000100319;
         1700000300065; 1700000300123; 1700000300130; 1700000300131;
         1700000300189]%Z
        [None; None; Some "unavailable"].

(** The block of the second vote of ["U1"] in that world, mined at index
    1 on a genesis block made up after the rejected load. *)
Definition overwriting_vote : Block :=
  {| index := 1; timestamp := 1700000300189;
     data := VoteData (Vote.Make "VOTE" "E1" 1
       "316ca0efda6296d8f2c11d1e20890d220cec4266a0c16fbbef324c004688468a"
       "00e294b876c3873bc4d510940b53ce47802ec52c68e0bfa5bfa7dc1a8a4c7a91"
       1700000300131);
     previousHash := "00619aab5ce431ab17306a0249e353fa4b9ca15b5a3851f215c6595b15b49e37";
     hash := "002eba521cf211f637ef2be70ff0ab5b033bf0bff7c1cccf31b8341676cb2324";
     nonce := 5 |}.

(** The number of records that name the candidate [k]. *)
Definition votes_for (k : Z) (votes : list VoteRecord) : Z :=
  Z.of_nat (length (filter (fun vote => vr_candidateId vote = k) votes)).

(** * Properties *)

(** ** Strings, numerals and JSON text *)

Section StringFacts.

Lemma string_app_nil_l (t : string) : EmptyString ++ t = t.
Proof. reflexivity. Qed.

Lemma string_app_cons c (s t : string) : String c s ++ t = String c (s ++ t).
Proof. reflexivity. Qed.

Lemma string_app_assoc (a b c : string) : (a ++ b) ++ c = a ++ (b ++ c).
Proof.
  induction a as [|x a IH]; [reflexivity|].
  rewrite !string_app_cons. by rewrite IH.
Qed.

Lemma string_app_length (a b : string) :
  String.length (a ++ b) = (String.length a + String.length b)%nat.
Proof.
  induction a as [|x a IH]; [reflexivity|].
  rewrite string_app_cons. simpl. by rewrite IH.
Qed.

Lemma string_app_inv_tail (a b t : string) : a ++ t = b ++ t -> a = b.
Proof.
  revert b. induction a as [|x a IH]; intros [|y b] Heq.
  - reflexivity.
  - apply (f_equal String.length) in Heq.
    rewrite !string_app_length in Heq. simpl in Heq. lia.
  - apply (f_equal String.length) in Heq.
    rewrite !string_app_length in Heq. simpl in Heq. lia.
  - rewrite !string_app_cons in Heq. injection Heq as -> Heq.
    f_equal. by apply IH.
Qed.

Lemma string_cons_inv c c' (s t : string) : String c s = String c' t -> s = t.
Proof. by intros [= _ ->]. Qed.

Lemma string_app_inv_head (a s t : string) : a ++ s = a ++ t -> s = t.
Proof. apply (inj (String.append a)). Qed.

(** Escaped characters can be read back. *)
Lemma unescape_head_escape c rest :
  unescape_head (json_escape_char c ++ rest) = Some (c, rest).
Proof. destruct c as [[] [] [] [] [] [] [] []]; reflexivity. Qed.

Lemma unescape_head_dquote rest : unescape_head (String dquote rest) = None.
Proof. reflexivity. Qed.

Lemma json_escape_delimited s1 : forall s2 r1 r2,
  json_escape s1 ++ String dquote r1 = json_escape s2 ++ String dquote r2 ->
  s1 = s2 /\ r1 = r2.
Proof.
  induction s1 as [|c1 s1 IH]; intros [|c2 s2] r1 r2 Heq; simpl in Heq.
  - rewrite !string_app_nil_l in Heq. by injection Heq as ->.
  - rewrite string_app_nil_l, string_app_assoc in Heq.
    apply (f_equal unescape_head) in Heq.
    by rewrite unescape_head_escape, unescape_head_dquote in Heq.
  - rewrite string_app_nil_l, string_app_assoc in Heq.
    apply (f_equal unescape_head) in Heq.
    by rewrite unescape_head_escape, unescape_head_dquote in Heq.
  - rewrite !string_app_assoc in Heq.
    apply (f_equal unescape_head) in Heq.
    rewrite !unescape_head_escape in Heq. injection Heq as -> Heq.
    destruct (IH _ _ _ Heq) as [-> ->]. done.
Qed.

Lemma json_string_app s r :
  json_string s ++ r = String dquote (json_escape s ++ String dquote r).
Proof.
  unfold json_string. rewrite string_app_cons, string_app_assoc.
  reflexivity.
Qed.

Lemma json_string_delimited s1 s2 r1 r2 :
  json_string s1 ++ r1 = json_string s2 ++ r2 -> s1 = s2 /\ r1 = r2.
Proof.
  rewrite !json_string_app. intros [= Heq]. by apply json_escape_delimited.
Qed.

(** Decimal numerals are made of digits and a sign, so they end where
    another character begins. *)
Lemma pretty_N_char_numeric x : is_numeric (pretty_N_char x) = true.
Proof. unfold pretty_N_char. by repeat case_match. Qed.

Lemma pretty_N_go_numeric x : forall s,
  all_numeric s = true -> all_numeric (pretty_N_go x s) = true.
Proof.
  induction (N.lt_wf_0 x) as [x _ IH]; intros s Hs.
  destruct (decide (x = 0)%N) as [->|Hx]; [by rewrite pretty_N_go_0|].
  rewrite pretty_N_go_step by lia.
  apply IH; [apply N.div_lt; lia|].
  simpl. by rewrite pretty_N_char_numeric, Hs.
Qed.

Lemma pretty_N_numeric (x : N) : all_numeric (pretty x) = true.
Proof.
  unfold pretty, pretty_N. case_decide; [reflexivity|].
  by apply pretty_N_go_numeric.
Qed.

Lemma pretty_Z_numeric (z : Z) : all_numeric (pretty z) = true.
Proof.
  destruct z as [|p|p]; unfold pretty, pretty_Z; [reflexivity| |].
  - apply (pretty_N_numeric (N.pos p)).
  - rewrite string_app_cons, string_app_nil_l. simpl.
    apply (pretty_N_numeric (N.pos p)).
Qed.

Lemma numeric_delimited a : forall b c c' r r',
  all_numeric a = true -> all_numeric b = true ->
  is_numeric c = false -> is_numeric c' = false ->
  a ++ String c r = b ++ String c' r' ->
  a = b /\ String c r = String c' r'.
Proof.
  induction a as [|x a IH]; intros [|y b] c c' r r' Ha Hb Hc Hc' Heq.
  - done.
  - rewrite string_app_nil_l, string_app_cons in Heq. injection Heq as -> _.
    simpl in Hb. rewrite Hc in Hb. done.
  - rewrite string_app_nil_l, string_app_cons in Heq. injection Heq as <- _.
    simpl in Ha. rewrite Hc' in Ha. done.
  - rewrite !string_app_cons in Heq. injection Heq as -> Heq.
    simpl in Ha, Hb.
    apply andb_prop in Ha as [_ Ha]. apply andb_prop in Hb as [_ Hb].
    destruct (IH _ _ _ _ _ Ha Hb Hc Hc' Heq) as [-> ?]. done.
Qed.

Lemma pretty_Z_delimited (z1 z2 : Z) c c' r r' :
  is_numeric c = false -> is_numeric c' = false ->
  pretty z1 ++ String c r = pretty z2 ++ String c' r' ->
  z1 = z2 /\ String c r = String c' r'.
Proof.
  intros Hc Hc' Heq.
  destruct (numeric_delimited _ _ _ _ _ _ (pretty_Z_numeric z1)
              (pretty_Z_numeric z2) Hc Hc' Heq) as [Hz ?].
  split; [|done]. by apply (inj pretty).
Qed.

(** [JSON.stringify] tells the payloads apart. *)
Lemma JSON_stringify_inj d1 d2 :
  JSON_stringify d1 = JSON_stringify d2 -> d1 = d2.
Proof.
  destruct d1 as [m1|[t1 e1 c1 h1 g1 s1]], d2 as [m2|[t2 e2 c2 h2 g2 s2]];
    unfold JSON_stringify; simpl; intros Heq.
  - apply string_app_inv_head, string_app_inv_head, string_app_inv_head in Heq.
    apply json_string_delimited in Heq as [-> _]. done.
  - apply string_app_inv_head in Heq. rewrite !json_string_app in Heq.
    discriminate Heq.
  - apply string_app_inv_head in Heq. rewrite !json_string_app in Heq.
    discriminate Heq.
  - do 3 apply string_app_inv_head in Heq.
    apply json_string_delimited in Heq as [-> Heq].
    do 3 apply string_app_inv_head in Heq.
    apply json_string_delimited in Heq as [-> Heq].
    do 3 apply string_app_inv_head in Heq.
    apply pretty_Z_delimited in Heq as [-> Heq]; [|reflexivity..].
    apply string_cons_inv in Heq.
    do 2 apply string_app_inv_head in Heq.
    apply json_string_delimited in Heq as [-> Heq].
    do 3 apply string_app_inv_head in Heq.
    apply json_string_delimited in Heq as [-> Heq].
    do 3 apply string_app_inv_head in Heq.
    apply pretty_Z_delimited in Heq as [-> Heq]; [|reflexivity..].
    done.
Qed.

End StringFacts.


Section LedgerFacts.

Context `{HashFunction}.

(** *** The target test *)

Lemma meets_target_leading_zeros d h :
  meets_target d h <-> (d <= leading_zeros h)%nat.
Proof.
  unfold meets_target. revert h. induction d as [|d IH]; intros h.
  - destruct h; simpl; split; auto with lia.
  - destruct h as [|c h]; simpl.
    + split; [discriminate | lia].
    + destruct (decide (c = "0"%char)) as [->|Hc].
      * simpl. rewrite <- Nat.succ_le_mono, <- IH.
        split; [intros [= ?]; done | intros ->; done].
      * split.
        -- intros [= ? ?]. done.
        -- intros Hle. exfalso.
           assert (leading_zeros (String c h) = 0%nat) as Hz.
           { clear -Hc. destruct c as [[] [] [] [] [] [] [] []]; try reflexivity.
             done. }
           simpl in Hz. lia.
Qed.

Lemma meets_target_length d h : meets_target d h -> (d <= String.length h)%nat.
Proof.
  unfold meets_target. revert h. induction d as [|d IH]; intros h; [lia|].
  destruct h as [|c h]; simpl; [discriminate|].
  intros [= _ Hh]. apply IH in Hh. lia.
Qed.

Lemma meets_target_zero h : meets_target 0 h.
Proof. unfold meets_target. destruct h; reflexivity. Qed.

Lemma not_meets_target_empty d : (1 <= d)%nat -> ~ meets_target d EmptyString.
Proof. intros Hd Hm. apply meets_target_length in Hm. simpl in Hm. lia. Qed.

(** *** The hash ignores the stored hash *)

Lemma preimage_set_hash h b : preimage (set_hash h b) = preimage b.
Proof. reflexivity. Qed.

Lemma calculateHash_set_hash h b : calculateHash (set_hash h b) = calculateHash b.
Proof. reflexivity. Qed.

Lemma with_nonce_sealed b n : hash (with_nonce b n) = calculateHash (with_nonce b n).
Proof. reflexivity. Qed.

Lemma with_nonce_with_nonce b k n : with_nonce (with_nonce b k) n = with_nonce b n.
Proof. reflexivity. Qed.

Lemma with_nonce_fields b n :
  index (with_nonce b n) = index b /\ timestamp (with_nonce b n) = timestamp b /\
  data (with_nonce b n) = data b /\ previousHash (with_nonce b n) = previousHash b /\
  nonce (with_nonce b n) = n.
Proof. repeat split. Qed.

(** A changed field changes the string that is hashed. *)
Lemma preimage_mutate m b : mutate m b <> b -> preimage (mutate m b) <> preimage b.
Proof.
  intros Hne Heq. apply Hne. clear Hne.
  destruct b as [i t p ph h n]. unfold preimage in Heq.
  destruct m as [v|v|v|v|v]; simpl in *; unfold set_nonce; simpl; f_equal.
  - apply string_app_inv_tail in Heq. by apply (inj pretty).
  - do 2 apply string_app_inv_head in Heq.
    apply string_app_inv_tail in Heq. by apply (inj pretty).
  - do 3 apply string_app_inv_head in Heq.
    apply string_app_inv_tail in Heq. by apply JSON_stringify_inj.
  - apply string_app_inv_head in Heq. by apply string_app_inv_tail in Heq.
  - do 4 apply string_app_inv_head in Heq. by apply (inj pretty).
Qed.

Lemma hash_mutate m b : hash (mutate m b) = hash b.
Proof. by destruct m. Qed.

(** *** The mining loop *)

Lemma mineBlock_met d fuel b : meets_target d (hash b) -> mineBlock d fuel b = Some b.
Proof.
  intros Hm. destruct fuel; simpl; rewrite bool_decide_eq_false_2; auto.
Qed.

Lemma mineBlock_step d fuel b :
  ~ meets_target d (hash b) ->
  mineBlock d (S fuel) b = mineBlock d fuel (with_nonce b (nonce b + 1)).
Proof. intros Hm. simpl. rewrite bool_decide_eq_true_2; auto. Qed.

Lemma mineBlock_out_of_fuel d b : ~ meets_target d (hash b) -> mineBlock d 0 b = None.
Proof. intros Hm. simpl. rewrite bool_decide_eq_true_2; auto. Qed.

(** A run that starts off target ends at the first nonce above the
    starting one whose digest is on target. *)
Lemma mineBlock_sound d fuel : forall b sealed,
  ~ meets_target d (hash b) ->
  mineBlock d fuel b = Some sealed ->
  exists n, (nonce b < n <= nonce b + Z.of_nat fuel)%Z /\
    sealed = with_nonce b n /\
    meets_target d (hash sealed) /\
    forall m, (nonce b < m < n)%Z ->
      ~ meets_target d (calculateHash (set_nonce m b)).
Proof.
  induction fuel as [|fuel IH]; intros b sealed Hoff Hrun.
  - rewrite mineBlock_out_of_fuel in Hrun by done. discriminate.
  - rewrite mineBlock_step in Hrun by done.
    set (b2 := with_nonce b (nonce b + 1)) in *.
    destruct (decide (meets_target d (hash b2))) as [Hm|Hm].
    + rewrite mineBlock_met in Hrun by done. injection Hrun as <-.
      exists (nonce b + 1)%Z.
      split; [lia|]. split; [done|]. split; [exact Hm|]. intros m ?. lia.
    + destruct (IH b2 sealed Hm Hrun) as (n & Hn & -> & Hs & Hmin).
      exists n. subst b2. simpl in Hn.
      split; [lia|]. split; [done|]. split; [exact Hs|]. intros m Hlt.
      destruct (decide (m = nonce b + 1)%Z) as [->|Hne]; [exact Hm|].
      apply (Hmin m). simpl. lia.
Qed.

Lemma mineBlock_complete d fuel : forall b n,
  ~ meets_target d (hash b) ->
  (nonce b < n <= nonce b + Z.of_nat fuel)%Z ->
  meets_target d (calculateHash (set_nonce n b)) ->
  (forall m, (nonce b < m < n)%Z ->
     ~ meets_target d (calculateHash (set_nonce m b))) ->
  mineBlock d fuel b = Some (with_nonce b n).
Proof.
  induction fuel as [|fuel IH]; intros b n Hoff Hn Hm Hmin; [lia|].
  rewrite mineBlock_step by done.
  destruct (decide (n = nonce b + 1)%Z) as [->|Hne].
  - apply mineBlock_met. exact Hm.
  - rewrite <- (with_nonce_with_nonce b (nonce b + 1) n).
    apply IH.
    + apply (Hmin (nonce b + 1)%Z). lia.
    + simpl. lia.
    + exact Hm.
    + intros m Hlt. apply (Hmin m). simpl in Hlt. lia.
Qed.

(** Some nonce on target above the starting one is enough for the loop to
    end. *)
Lemma mineBlock_terminates d : forall fuel b n,
  (nonce b < n <= nonce b + Z.of_nat fuel)%Z ->
  meets_target d (calculateHash (set_nonce n b)) ->
  exists sealed, mineBlock d fuel b = Some sealed.
Proof.
  induction fuel as [|fuel IH]; intros b n Hn Hm; [lia|].
  destruct (decide (meets_target d (hash b))) as [Hon|Hoff].
  { exists b. by apply mineBlock_met. }
  rewrite mineBlock_step by done.
  destruct (decide (n = nonce b + 1)%Z) as [->|Hne].
  - eexists. apply mineBlock_met. exact Hm.
  - apply (IH _ n); [simpl; lia|exact Hm].
Qed.

(** *** The validation loop *)

Definition block_ok (chain : list Block) (j : nat) : Prop :=
  match chain !! j, chain !! (j - 1)%nat with
  | Some cur, Some prev =>
      hash cur = calculateHash cur /\ previousHash cur = hash prev
  | _, _ => True
  end.

Lemma isChainValid_loop_true chain count : forall i,
  (1 <= i)%nat ->
  isChainValid_loop chain i count = true <->
  forall j, (i <= j < i + count)%nat -> block_ok chain j.
Proof.
  induction count as [|count IH]; intros i Hi; simpl.
  { split; [intros _ j ?; lia | done]. }
  destruct (chain !! i) as [cur|] eqn:Hcur.
  2:{ split; [|done]. intros _ j Hj. unfold block_ok.
      rewrite (lookup_ge_None_2 chain j); [done|].
      apply lookup_ge_None_1 in Hcur. lia. }
  destruct (chain !! (i - 1)%nat) as [prev|] eqn:Hprev.
  2:{ apply lookup_ge_None_1 in Hprev. apply lookup_lt_Some in Hcur. lia. }
  destruct (decide (hash cur = calculateHash cur)) as [Hh|Hh].
  2:{ rewrite bool_decide_eq_true_2 by done.
      split; [done|]. intros Hall. specialize (Hall i ltac:(lia)).
      unfold block_ok in Hall. rewrite Hcur, Hprev in Hall. tauto. }
  rewrite bool_decide_eq_false_2 by auto.
  destruct (decide (previousHash cur = hash prev)) as [Hp|Hp].
  2:{ rewrite bool_decide_eq_true_2 by done.
      split; [done|]. intros Hall. specialize (Hall i ltac:(lia)).
      unfold block_ok in Hall. rewrite Hcur, Hprev in Hall. tauto. }
  rewrite bool_decide_eq_false_2 by auto.
  rewrite IH by lia. split.
  - intros Hall j Hj. destruct (decide (j = i)) as [->|Hne].
    + unfold block_ok. by rewrite Hcur, Hprev.
    + apply Hall. lia.
  - intros Hall j Hj. apply Hall. lia.
Qed.

Lemma isChainValid_true chain :
  isChainValid chain = true <->
  forall j cur prev,
    chain !! S j = Some cur -> chain !! j = Some prev ->
    hash cur = calculateHash cur /\ previousHash cur = hash prev.
Proof.
  unfold isChainValid.
  rewrite isChainValid_loop_true by lia. split.
  - intros Hall j cur prev Hcur Hprev.
    assert (S j < length chain)%nat by (by eapply lookup_lt_Some).
    specialize (Hall (S j) ltac:(lia)). unfold block_ok in Hall.
    replace (S j - 1)%nat with j in Hall by lia.
    by rewrite Hcur, Hprev in Hall.
  - intros Hall j Hj. unfold block_ok.
    destruct j as [|j]; [lia|]. replace (S j - 1)%nat with j by lia.
    destruct (chain !! S j) eqn:?, (chain !! j) eqn:?; eauto.
Qed.

(** Mining touches [nonce] and [hash] only. *)
Lemma mineBlock_fields d fuel : forall b sealed,
  mineBlock d fuel b = Some sealed ->
  index sealed = index b /\ timestamp sealed = timestamp b /\
  data sealed = data b /\ previousHash sealed = previousHash b.
Proof.
  induction fuel as [|fuel IH]; intros b sealed Hrun;
    (destruct (decide (meets_target d (hash b))) as [Hon|Hoff];
     [rewrite mineBlock_met in Hrun by done; by injection Hrun as <-|]).
  - by rewrite mineBlock_out_of_fuel in Hrun.
  - rewrite mineBlock_step in Hrun by done. by apply IH in Hrun.
Qed.

(** What mining leaves in [hash]: the digest of the block, unless the
    loop never ran. *)
Lemma mineBlock_hash d fuel b sealed :
  mineBlock d fuel b = Some sealed ->
  sealed = b \/ hash sealed = calculateHash sealed.
Proof.
  intros Hrun. destruct (decide (meets_target d (hash b))) as [Hon|Hoff].
  - rewrite mineBlock_met in Hrun by done. left. by injection Hrun.
  - right. apply mineBlock_sound in Hrun as (n & _ & -> & _); done.
Qed.

Lemma mineBlock_sealed d fuel b sealed :
  (1 <= d)%nat -> hash b = EmptyString ->
  mineBlock d fuel b = Some sealed ->
  hash sealed = calculateHash sealed.
Proof.
  intros Hd Hempty Hrun.
  apply mineBlock_sound in Hrun as (n & _ & -> & _); [done|].
  rewrite Hempty. by apply not_meets_target_empty.
Qed.

Lemma mineBlock_zero fuel b : mineBlock 0 fuel b = Some b.
Proof. apply mineBlock_met, meets_target_zero. Qed.

Lemma mineBlock_never d b :
  (forall s, ~ meets_target d (Digest s)) ->
  ~ meets_target d (hash b) ->
  forall fuel, mineBlock d fuel b = None.
Proof.
  intros Hnone Hoff fuel. revert b Hoff.
  induction fuel as [|fuel IH]; intros b Hoff.
  - by apply mineBlock_out_of_fuel.
  - rewrite mineBlock_step by done. apply IH. apply Hnone.
Qed.

(** *** Mining *)

(** C5, as the code has it.  A block that enters the loop off target (as
    every candidate does at a difficulty of at least 1, its hash being
    empty) leaves it with the first nonce above its starting nonce whose
    digest is on target: the nonces are tried in increasing order, the
    starting nonce itself is never tried, and the loop ends within [fuel]
    iterations exactly when that first nonce is at most [fuel] steps
    away. *)
Theorem mineBlock_first_nonce_above d fuel block sealed :
  ~ meets_target d (hash block) ->
  mineBlock d fuel block = Some sealed <->
  exists n, (nonce block < n <= nonce block + Z.of_nat fuel)%Z /\
    sealed = with_nonce block n /\
    meets_target d (calculateHash (set_nonce n block)) /\
    forall m, (nonce block < m < n)%Z ->
      ~ meets_target d (calculateHash (set_nonce m block)).
Proof.
  intros Hoff. split.
  - intros Hrun.
    destruct (mineBlock_sound d fuel block sealed Hoff Hrun)
      as (n & Hn & -> & Hs & Hmin).
    exists n. split; [exact Hn|]. split; [reflexivity|]. split; [exact Hs|exact Hmin].
  - intros (n & Hn & -> & Hm & Hmin). by apply mineBlock_complete.
Qed.

(** C8, as the code has it.  At a difficulty of at least 1 the loop on a
    candidate with the empty hash ends if and only if some nonce above the
    starting one gives a digest on target; the block it ends with is on
    target, has at least [d] leading zeros and carries the digest of its
    own fields; and with digests shorter than [d] characters the loop
    never ends. *)
Theorem mineBlock_ends_iff_target_reachable d block :
  (1 <= d)%nat ->
  hash block = EmptyString ->
  ((exists fuel sealed, mineBlock d fuel block = Some sealed) <->
   (exists n, (nonce block < n)%Z /\
      meets_target d (calculateHash (set_nonce n block)))) /\
  (forall fuel sealed, mineBlock d fuel block = Some sealed ->
     (d <= leading_zeros (hash sealed))%nat /\
     hash sealed = calculateHash sealed) /\
  ((forall s, (String.length (Digest s) < d)%nat) ->
   forall fuel, mineBlock d fuel block = None).
Proof.
  intros Hd Hempty.
  assert (~ meets_target d (hash block)) as Hoff.
  { rewrite Hempty. by apply not_meets_target_empty. }
  split; [split|split].
  - intros (fuel & sealed & Hrun).
    destruct (mineBlock_sound d fuel block sealed Hoff Hrun)
      as (n & Hn & -> & Hs & _).
    exists n. split; [lia|exact Hs].
  - intros (n & Hn & Hm).
    exists (Z.to_nat (n - nonce block)).
    apply (mineBlock_terminates d _ block n); [lia|exact Hm].
  - intros fuel sealed Hrun.
    destruct (mineBlock_sound d fuel block sealed Hoff Hrun)
      as (n & Hn & -> & Hs & _).
    split; [by apply meets_target_leading_zeros|reflexivity].
  - intros Hshort fuel. apply mineBlock_never; [|exact Hoff].
    intros s Hm. apply meets_target_length in Hm. specialize (Hshort s). lia.
Qed.

(** *** Validation *)

(** C2, as the code has it.  [isChainValid] answers [true] exactly when
    every block from index 1 on stores the digest of its own fields and
    names the stored hash of its predecessor; nothing else is looked at:
    not the target, not the indices, not block 0. *)
Theorem isChainValid_checks_hash_and_link chain :
  isChainValid chain = true <->
  forall j cur prev,
    chain !! S j = Some cur -> chain !! j = Some prev ->
    hash cur = calculateHash cur /\ previousHash cur = hash prev.
Proof. apply isChainValid_true. Qed.

(** C9.  Whatever replaces block 0, as long as the replacement stores the
    same hash, a chain that validated still validates. *)
Theorem genesis_tampering_undetected chain genesis genesis' :
  chain !! 0%nat = Some genesis ->
  hash genesis' = hash genesis ->
  isChainValid chain = true ->
  isChainValid (<[0%nat := genesis']> chain) = true.
Proof.
  intros H0 Hh. rewrite !isChainValid_true. intros Hall j cur prev Hcur Hprev.
  rewrite list_lookup_insert_ne in Hcur by lia.
  destruct j as [|j].
  - rewrite list_lookup_insert_eq in Hprev by (by eapply lookup_lt_Some).
    injection Hprev as <-. rewrite Hh. by apply (Hall 0%nat).
  - rewrite list_lookup_insert_ne in Hprev by lia. by apply (Hall (S j)).
Qed.

End LedgerFacts.

(** ** The effectful functions *)

Section EffectFacts.

Context `{HashFunction}.
Variable env : ENV.blockchain.
Variable fuel : nat.

Ltac unfold_M :=
  unfold mbind, M_bind, bind, mret, M_ret, ret, try_catch, throw, unfinished.

(** *** What each function does to the world, as equations *)

Lemma createGenesisBlock_eq self w :
  createGenesisBlock env fuel self w =
  match mineBlock (difficulty self) fuel (genesisBlock env (hd 0%Z (clock w))) with
  | Some sealed => (Ret (set_chain (chain self ++ [sealed]) self), advance_clock w)
  | None => (Unfinished, advance_clock w)
  end.
Proof.
  unfold createGenesisBlock, mine, getTime. unfold_M.
  by destruct (mineBlock _ _ _).
Qed.

Lemma new_Blockchain_eq w :
  new_Blockchain env fuel w =
  createGenesisBlock env fuel {| chain := []; difficulty := ENV.difficulty env |} w.
Proof. reflexivity. Qed.

Lemma saveBlockToFirebase_eq block w :
  saveBlockToFirebase block w =
  (Ret tt,
   match faults w with
   | Some _ :: _ => next_fault w
   | _ => set_blockchain_docs
            (upsert (pretty (index block)) block (blockchain_docs w))
            (next_fault w)
   end).
Proof.
  unfold saveBlockToFirebase, setDoc_blockchain, store_call. unfold_M.
  by destruct (faults w) as [|[msg|] rest].
Qed.

Lemma addBlock_eq payload self previousBlock w :
  getLatestBlock self = Some previousBlock ->
  addBlock fuel payload self w =
  match mineBlock (difficulty self) fuel
          (newBlock previousBlock (hd 0%Z (clock w)) payload) with
  | Some sealed =>
      (Ret (sealed, set_chain (chain self ++ [sealed]) self),
       (saveBlockToFirebase sealed (advance_clock w)).2)
  | None => (Unfinished, advance_clock w)
  end.
Proof.
  intros Hlatest. unfold addBlock. rewrite Hlatest.
  unfold mine, getTime. unfold_M.
  destruct (mineBlock _ _ _) as [sealed|]; [|done].
  by rewrite saveBlockToFirebase_eq.
Qed.

Lemma loadFromFirebase_eq self w :
  loadFromFirebase env fuel self w =
  match faults w with
  | Some _ :: _ => createGenesisBlock env fuel (set_chain [] self) (next_fault w)
  | _ =>
      let loaded := order_by_index (blockchain_docs w) in
      if bool_decide (length loaded = 0%nat)
      then createGenesisBlock env fuel (set_chain loaded self) (next_fault w)
      else (Ret (set_chain loaded self), next_fault w)
  end.
Proof.
  unfold loadFromFirebase, getDocs_blockchain, store_call. unfold_M.
  destruct (faults w) as [|[msg|] rest]; simpl; try done;
    case_bool_decide; try done;
    rewrite createGenesisBlock_eq; by destruct (mineBlock _ _ _).
Qed.

(** *** The latest block *)

Lemma getLatestBlock_last self : getLatestBlock self = last (chain self).
Proof.
  unfold getLatestBlock. rewrite last_lookup. f_equal. lia.
Qed.

Lemma getLatestBlock_snoc self b :
  getLatestBlock (set_chain (chain self ++ [b]) self) = Some b.
Proof. rewrite getLatestBlock_last. simpl. apply last_snoc. Qed.

Lemma getLatestBlock_is_Some self :
  chain self <> [] -> exists b, getLatestBlock self = Some b.
Proof.
  rewrite getLatestBlock_last. intros Hne.
  destruct (last (chain self)) as [b|] eqn:Hlast; [by exists b|].
  by apply last_None in Hlast.
Qed.

Global Instance index_le_trans : Transitive index_le.
Proof. unfold index_le. intros x y z ??. lia. Qed.

Global Instance index_le_total : Total index_le.
Proof. unfold index_le. intros x y. lia. Qed.

(** The last block of an ordered load has the largest index in the
    collection. *)
Lemma order_by_index_last docs latest :
  last (order_by_index docs) = Some latest ->
  forall b, b ∈ docs.*2 -> (index b <= index latest)%Z.
Proof.
  intros Hlast b Hb. unfold order_by_index in Hlast.
  apply last_Some in Hlast as [l' Hl'].
  assert (b ∈ (l' ++ [latest])%list) as Hin.
  { rewrite <- Hl'. by rewrite merge_sort_Permutation. }
  pose proof (StronglySorted_merge_sort index_le docs.*2) as Hsorted.
  rewrite Hl' in Hsorted.
  apply elem_of_app in Hin as [Hin|Hin].
  - apply (StronglySorted_app_1_elem_of index_le l' [latest] b latest Hsorted Hin).
    by apply list_elem_of_singleton.
  - apply list_elem_of_singleton in Hin as ->. lia.
Qed.

Lemma order_by_index_nil docs : order_by_index docs = [] <-> docs = [].
Proof.
  unfold order_by_index. split.
  - intros Hnil.
    assert (docs.*2 ≡ₚ []) as Hp by (by rewrite <- Hnil, merge_sort_Permutation).
    apply Permutation_nil_r in Hp. by destruct docs.
  - by intros ->.
Qed.

(** *** Loading *)

(** [loadFromFirebase] never throws.  Its mining loop is still running,
    or it ends in one of three ways: the load was rejected and the chain
    is a fresh genesis block; the collection is empty and the chain is a
    fresh genesis block; the chain is the collection in the order of the
    indices. *)
Lemma loadFromFirebase_run self w r w2 :
  loadFromFirebase env fuel self w = (r, w2) ->
  r = Unfinished \/
  exists bc, r = Ret bc /\
    difficulty bc = difficulty self /\
    chain bc <> [] /\
    blockchain_docs w2 = blockchain_docs w /\
    faults w2 = tl (faults w) /\
    (((exists msg, head (faults w) = Some (Some msg)) \/ blockchain_docs w = []) /\
     (exists g, chain bc = [g] /\
        mineBlock (difficulty self) fuel
          (genesisBlock env (hd 0%Z (clock w))) = Some g) /\
     clock w2 = tl (clock w)
     \/
     (forall msg, head (faults w) <> Some (Some msg)) /\
     blockchain_docs w <> [] /\
     chain bc = order_by_index (blockchain_docs w) /\
     clock w2 = clock w).
Proof.
  rewrite loadFromFirebase_eq.
  assert (forall self' w1,
    blockchain_docs w1 = blockchain_docs w -> faults w1 = tl (faults w) ->
    clock w1 = clock w ->
    chain self' = [] -> difficulty self' = difficulty self ->
    ((exists msg, head (faults w) = Some (Some msg)) \/ blockchain_docs w = []) ->
    createGenesisBlock env fuel self' w1 = (r, w2) ->
    r = Unfinished \/
    exists bc, r = Ret bc /\ difficulty bc = difficulty self /\ chain bc <> [] /\
      blockchain_docs w2 = blockchain_docs w /\ faults w2 = tl (faults w) /\
      (((exists msg, head (faults w) = Some (Some msg)) \/ blockchain_docs w = []) /\
       (exists g, chain bc = [g] /\
          mineBlock (difficulty self) fuel
            (genesisBlock env (hd 0%Z (clock w))) = Some g) /\
       clock w2 = tl (clock w)
       \/
       (forall msg, head (faults w) <> Some (Some msg)) /\
       blockchain_docs w <> [] /\
       chain bc = order_by_index (blockchain_docs w) /\
       clock w2 = clock w))
    as Hgenesis.
  { intros self' w1 Hdocs Hfaults Hclock Hchain Hdiff Hwhy.
    rewrite createGenesisBlock_eq, Hdiff, Hclock.
    destruct (mineBlock _ _ _) as [g|] eqn:Hmine; intros [= <- <-]; [|by left].
    right. eexists. split; [done|]. simpl. rewrite Hchain.
    split; [done|]. split; [done|]. split; [done|]. split; [done|].
    left. split; [done|]. split; [by exists g|]. by rewrite Hclock. }
  destruct (faults w) as [|[msg|] rest] eqn:Hf; simpl.
  - case_bool_decide as Hlen.
    + apply Hgenesis;
        [done | simpl; by rewrite Hf | done
        | simpl; by apply nil_length_inv in Hlen
        | done | right; by apply order_by_index_nil, nil_length_inv].
    + intros [= <- <-]. right. eexists. split; [done|]. simpl.
      split; [done|]. split; [intros Hnil; by rewrite Hnil in Hlen|].
      split; [done|]. split; [by rewrite Hf|]. right.
      split; [done|]. split; [|done].
      intros Hnil. by rewrite Hnil in Hlen.
  - apply Hgenesis;
      [done | simpl; by rewrite Hf | done | done | done | left; by exists msg].
  - case_bool_decide as Hlen.
    + apply Hgenesis;
        [done | simpl; by rewrite Hf | done
        | simpl; by apply nil_length_inv in Hlen
        | done | right; by apply order_by_index_nil, nil_length_inv].
    + intros [= <- <-]. right. eexists. split; [done|]. simpl.
      split; [done|]. split; [intros Hnil; by rewrite Hnil in Hlen|].
      split; [done|]. split; [by rewrite Hf|]. right.
      split; [done|]. split; [|done].
      intros Hnil. by rewrite Hnil in Hlen.
Qed.

(** *** Recording a vote *)

(** The run of [recordVoteOnBlockchain], step by step: the genesis block
    of the constructor, the load, the two readings of the clock, the
    mining of the vote block on the latest block and the attempt to save
    it.  No path ends in an error. *)
Lemma recordVoteOnBlockchain_run electionId candidateId voterId w r w' :
  recordVoteOnBlockchain env fuel electionId candidateId voterId w = (r, w') ->
  r = Unfinished \/
  exists g0 bc w2 latest voteHash now sealed,
    loadFromFirebase env fuel
      {| chain := [g0]; difficulty := ENV.difficulty env |}
      (advance_clock w) = (Ret bc, w2) /\
    getLatestBlock bc = Some latest /\
    mineBlock (ENV.difficulty env) fuel
      (newBlock latest (hd 0%Z (clock (advance_clock (advance_clock w2))))
         (VoteData (Vote.Make "VOTE" electionId candidateId
                              (Digest voterId) voteHash now))) = Some sealed /\
    r = Ret {| success := true; transactionHash := Some (hash sealed);
               error := None |} /\
    w' = (saveBlockToFirebase sealed
            (advance_clock (advance_clock (advance_clock w2)))).2.
Proof.
  unfold recordVoteOnBlockchain. unfold_M.
  rewrite new_Blockchain_eq, createGenesisBlock_eq. simpl.
  destruct (mineBlock _ _ _) as [g0|]; [|intros [= <- <-]; by left].
  destruct (loadFromFirebase _ _ _ _) as [r2 w2] eqn:Hload.
  destruct (loadFromFirebase_run _ _ _ _ Hload)
    as [->|(bc & -> & Hdiff & Hne & _)]; [intros [= <- <-]; by left|].
  unfold createVoteHash, getTime. unfold_M. simpl.
  destruct (getLatestBlock_is_Some bc Hne) as [latest Hlatest].
  rewrite (addBlock_eq _ _ latest) by done. rewrite Hdiff. simpl.
  destruct (mineBlock _ _ _) as [sealed|] eqn:Hmine; [|intros [= <- <-]; by left].
  intros [= <- <-]. right.
  exists g0, bc, w2, latest. do 2 eexists. exists sealed.
  split; [done|]. split; [done|]. split; [exact Hmine|]. done.
Qed.

(** *** A fresh ledger and its appended blocks *)

Lemma mineBlock_candidate_hash d b sealed :
  hash b = EmptyString ->
  mineBlock d fuel b = Some sealed ->
  ((1 <= d)%nat -> hash sealed = calculateHash sealed) /\
  (hash sealed = EmptyString \/ hash sealed = calculateHash sealed).
Proof.
  intros Hempty Hrun. split.
  - intros Hd. by eapply mineBlock_sealed.
  - destruct (mineBlock_hash _ _ _ _ Hrun) as [->|?]; [by left|by right].
Qed.

Lemma last_cons_default {A} (x : A) (l : list A) :
  last (x :: l) = Some (default x (last l)).
Proof.
  destruct l as [|y l]; [done|]. rewrite last_cons_cons.
  destruct (last (y :: l)) as [z|] eqn:Hl; [done|]. by apply last_None in Hl.
Qed.

Lemma appended_snoc d prev blocks b :
  appended d prev blocks ->
  index b = (index (default prev (last blocks)) + 1)%Z ->
  previousHash b = hash (default prev (last blocks)) ->
  ((1 <= d)%nat -> hash b = calculateHash b) ->
  (hash b = EmptyString \/ hash b = calculateHash b) ->
  appended d prev (blocks ++ [b]).
Proof.
  revert prev. induction blocks as [|x blocks IH]; intros prev Happ Hi Hp Hs Hh.
  - simpl in *. done.
  - destruct Happ as (? & ? & ? & ? & Happ). simpl.
    split; [done|]. split; [done|]. split; [done|]. split; [done|].
    apply IH; try done.
    + by rewrite last_cons_default in Hi.
    + by rewrite last_cons_default in Hp.
Qed.

Lemma addBlocks_run payloads : forall self w bc w' first rest,
  chain self = first :: rest ->
  appended (difficulty self) first rest ->
  addBlocks fuel payloads self w = (Ret bc, w') ->
  difficulty bc = difficulty self /\
  exists blocks,
    chain bc = first :: blocks /\
    appended (difficulty self) first blocks /\
    map data blocks = (map data rest ++ payloads)%list.
Proof.
  induction payloads as [|payload payloads IH];
    intros self w bc w' first rest Hchain Happ Hrun.
  - injection Hrun as <- <-. split; [done|]. exists rest.
    by rewrite app_nil_r.
  - simpl in Hrun. unfold_M.
    assert (getLatestBlock self = Some (default first (last rest))) as Hlatest.
    { by rewrite getLatestBlock_last, Hchain, last_cons_default. }
    unfold mbind, M_bind, bind in Hrun.
    rewrite (addBlock_eq _ _ _ _ Hlatest) in Hrun.
    destruct (mineBlock _ _ _) as [sealed|] eqn:Hmine; [|done].
    destruct (mineBlock_fields _ _ _ _ Hmine) as (Hi & _ & Hd & Hp).
    pose proof (fun Hempty => mineBlock_candidate_hash _ _ _ Hempty Hmine) as Hhash.
    destruct (Hhash eq_refl) as [Hs Hh]. clear Hhash.
    apply (IH _ _ _ _ first (rest ++ [sealed])%list) in Hrun.
    + destruct Hrun as (Hdiff & blocks & Hbc & Happ' & Hdata).
      split; [done|]. exists blocks. split; [done|]. split; [done|].
      rewrite Hdata, map_app. simpl. rewrite Hd. simpl. by rewrite <- app_assoc.
    + simpl. by rewrite Hchain.
    + simpl. by apply appended_snoc.
Qed.

(** The chain of a fresh ledger after its appends. *)
Lemma fresh_ledger_run payloads w bc w' :
  fresh_ledger env fuel payloads w = (Ret bc, w') ->
  difficulty bc = ENV.difficulty env /\
  exists genesis blocks,
    chain bc = genesis :: blocks /\
    mineBlock (ENV.difficulty env) fuel
      (genesisBlock env (hd 0%Z (clock w))) = Some genesis /\
    appended (ENV.difficulty env) genesis blocks /\
    map data blocks = payloads.
Proof.
  unfold fresh_ledger. unfold_M.
  rewrite new_Blockchain_eq, createGenesisBlock_eq. simpl.
  destruct (mineBlock _ _ _) as [genesis|] eqn:Hmine; [|done].
  intros Hrun. apply (addBlocks_run _ _ _ _ _ genesis []) in Hrun; [|done..].
  destruct Hrun as (Hdiff & blocks & Hbc & Happ & Hdata).
  split; [done|]. by exists genesis, blocks.
Qed.

(** What [appended] says block by block. *)
Lemma appended_lookup d blocks : forall first j cur prev,
  appended d first blocks ->
  (first :: blocks) !! S j = Some cur ->
  (first :: blocks) !! j = Some prev ->
  index cur = (index prev + 1)%Z /\
  previousHash cur = hash prev /\
  ((1 <= d)%nat -> hash cur = calculateHash cur) /\
  (hash cur = EmptyString \/ hash cur = calculateHash cur).
Proof.
  induction blocks as [|b blocks IH]; intros first j cur prev Happ Hcur Hprev.
  - done.
  - destruct Happ as (? & ? & ? & ? & Happ). destruct j as [|j].
    + simpl in *. injection Hcur as <-. injection Hprev as <-. done.
    + by apply (IH b j).
Qed.

Lemma appended_index d blocks : forall first j b,
  appended d first blocks ->
  (first :: blocks) !! j = Some b ->
  index b = (index first + Z.of_nat j)%Z.
Proof.
  induction blocks as [|x blocks IH]; intros first j b Happ Hb.
  - destruct j; [|done]. injection Hb as <-. lia.
  - destruct j as [|j]; [injection Hb as <-; lia|].
    destruct Happ as (Hi & _ & _ & _ & Happ).
    rewrite (IH x j b Happ Hb). lia.
Qed.

(** The shape of the chain of a fresh ledger after [N] appends, and its
    validity at a difficulty of at least 1. *)
Lemma fresh_ledger_shape payloads w bc w' :
  fresh_ledger env fuel payloads w = (Ret bc, w') ->
  length (chain bc) = S (length payloads) /\
  (forall j b, chain bc !! j = Some b -> index b = Z.of_nat j) /\
  (forall j cur prev, chain bc !! S j = Some cur -> chain bc !! j = Some prev ->
     previousHash cur = hash prev) /\
  map data (tail (chain bc)) = payloads /\
  ((1 <= ENV.difficulty env)%nat -> isChainValid (chain bc) = true).
Proof.
  intros Hrun.
  destruct (fresh_ledger_run _ _ _ _ Hrun)
    as (_ & genesis & blocks & -> & Hmine & Happ & Hdata).
  destruct (mineBlock_fields _ _ _ _ Hmine) as (Hi & _).
  split; [|split; [|split; [|split]]].
  - simpl. by rewrite <- Hdata, length_map.
  - intros j b Hb. rewrite (appended_index _ _ _ _ _ Happ Hb), Hi. simpl. lia.
  - intros j cur prev Hcur Hprev.
    by destruct (appended_lookup _ _ _ _ _ _ Happ Hcur Hprev) as (_ & ? & _).
  - done.
  - intros Hd. apply isChainValid_true. intros j cur prev Hcur Hprev.
    destruct (appended_lookup _ _ _ _ _ _ Happ Hcur Hprev) as (_ & ? & Hs & _).
    split; [by apply Hs|done].
Qed.

(** *** The collection under [upsert] *)

Lemma find_doc_upsert_eq {V} key (v : V) docs :
  find_doc key (upsert key v docs) = Some v.
Proof.
  induction docs as [|[k v0] docs IH]; simpl.
  - by rewrite bool_decide_eq_true_2.
  - case_bool_decide as Hk; simpl.
    + by rewrite bool_decide_eq_true_2.
    + by rewrite bool_decide_eq_false_2.
Qed.

Lemma find_doc_upsert_ne {V} key key' (v : V) docs :
  key <> key' -> find_doc key' (upsert key v docs) = find_doc key' docs.
Proof.
  intros Hne. induction docs as [|[k v0] docs IH]; simpl.
  - by rewrite bool_decide_eq_false_2.
  - case_bool_decide as Hk; simpl.
    + subst k. by rewrite !bool_decide_eq_false_2.
    + by rewrite IH.
Qed.

Lemma elem_of_upsert {V} key (v : V) docs x :
  x ∈ (upsert key v docs).*2 -> x = v \/ x ∈ docs.*2.
Proof.
  induction docs as [|[k v0] docs IH]; simpl.
  - intros Hx. apply list_elem_of_singleton in Hx. by left.
  - case_bool_decide; simpl; intros Hx; apply elem_of_cons in Hx as [->|Hx].
    + by left.
    + right. by apply elem_of_cons; right.
    + right. by apply elem_of_cons; left.
    + destruct (IH Hx) as [->|?]; [by left|right]. by apply elem_of_cons; right.
Qed.

Lemma elem_of_upsert_new {V} key (v : V) docs : v ∈ (upsert key v docs).*2.
Proof.
  induction docs as [|[k v0] docs IH]; simpl.
  - by apply list_elem_of_singleton.
  - case_bool_decide; simpl; apply elem_of_cons; [by left|by right].
Qed.

Lemma upsert_nonempty {V} key (v : V) docs : upsert key v docs <> [].
Proof. destruct docs as [|[k v0] docs]; simpl; [done|]. by case_bool_decide. Qed.

Lemma Forall_None_tail (fs : list (option string)) :
  Forall (fun f => f = None) fs -> Forall (fun f => f = None) (tl fs).
Proof. intros Hfs. destruct fs; [done|]. by apply Forall_cons in Hfs as [_ ?]. Qed.

Lemma Forall_None_head (fs : list (option string)) msg :
  Forall (fun f => f = None) fs -> head fs <> Some (Some msg).
Proof. intros Hfs. destruct fs; [done|]. by apply Forall_cons in Hfs as [-> _]. Qed.

(** One call of [recordVoteOnBlockchain] against a store that rejects
    nothing. *)
Lemma recordVoteOnBlockchain_accepted electionId candidateId voterId w receipt w1 :
  Forall (fun f => f = None) (faults w) ->
  recordVoteOnBlockchain env fuel electionId candidateId voterId w
    = (Ret receipt, w1) ->
  exists latest b voteHash now,
    (blockchain_docs w = [] \/
     last (order_by_index (blockchain_docs w)) = Some latest) /\
    index b = (index latest + 1)%Z /\
    previousHash b = hash latest /\
    data b = VoteData (Vote.Make "VOTE" electionId candidateId
                                 (Digest voterId) voteHash now) /\
    receipt = {| success := true; transactionHash := Some (hash b);
                 error := None |} /\
    blockchain_docs w1 = upsert (pretty (index b)) b (blockchain_docs w) /\
    Forall (fun f => f = None) (faults w1) /\
    (forall x, x ∈ (blockchain_docs w).*2 -> (index x < index b)%Z).
Proof.
  intros Hfaults Hrun.
  destruct (recordVoteOnBlockchain_run _ _ _ _ _ _ Hrun)
    as [?|(g0 & bc & w2 & latest & voteHash & now & b & Hload & Hlatest
           & Hmine & Hr & Hw1)]; [done|].
  injection Hr as ->.
  destruct (loadFromFirebase_run _ _ _ _ Hload)
    as [?|(bc' & [= <-] & Hdiff & Hne & Hdocs & Hf2 & Hcases)]; [done|].
  simpl in Hdocs, Hf2.
  destruct (mineBlock_fields _ _ _ _ Hmine) as (Hi & _ & Hd & Hp).
  simpl in Hi, Hd, Hp.
  rewrite saveBlockToFirebase_eq in Hw1. simpl in Hw1. rewrite Hf2, Hdocs in Hw1.
  assert (Forall (fun f => f = None) (tl (faults w))) as Htl
    by by apply Forall_None_tail.
  exists latest, b, voteHash, now.
  assert (blockchain_docs w = [] \/
          last (order_by_index (blockchain_docs w)) = Some latest) as Hlast.
  { destruct Hcases as [([[msg Hmsg]|Hempty] & _)|(_ & _ & Hchain & _)].
    - simpl in Hmsg. by apply Forall_None_head in Hmsg.
    - by left.
    - right. simpl in Hchain. by rewrite <- Hchain, <- getLatestBlock_last. }
  split; [exact Hlast|]. split; [done|]. split; [done|]. split; [done|].
  split; [done|].
  assert (blockchain_docs w1 = upsert (pretty (index b)) b (blockchain_docs w)
          /\ faults w1 = tl (tl (faults w))) as [Hd1 Hf1].
  { subst w1.
    destruct (tl (faults w)) as [|[msg|] rest] eqn:Hrest; simpl; rewrite Hf2;
      [done| |done].
    by apply Forall_cons in Htl as [? _]. }
  split; [done|]. split; [rewrite Hf1; by apply Forall_None_tail|].
  intros x Hx. destruct Hlast as [Hempty|Hlast].
  - rewrite Hempty in Hx. by apply elem_of_nil in Hx.
  - pose proof (order_by_index_last _ _ Hlast x Hx). lia.
Qed.

(** *** Tampering *)

(** C1, as the code has it.  [isChainValid] recomputes the digest of
    every block but the one at the head of the chain.  In a chain that
    passes, overwrite one of [index], [timestamp], [data],
    [previousHash], [nonce] of the block at position [i] with a different
    value, the stored hash staying as it is.  Provided the digest does
    not send the old and the new string of the block to the same value,
    [isChainValid] answers [false] exactly when [i] is not the first
    position.  The block at the head of the chain is not protected,
    whatever its index: in a chain loaded from the store it is the stored
    block of the least index, which need not be a genesis block. *)
Theorem tampering_detected_past_the_first_position chain i b m :
  isChainValid chain = true ->
  chain !! i = Some b ->
  mutate m b <> b ->
  (preimage (mutate m b) <> preimage b ->
   Digest (preimage (mutate m b)) <> Digest (preimage b)) ->
  isChainValid (<[i := mutate m b]> chain) = false <-> (1 <= i)%nat.
Proof.
  intros Hvalid Hb Hne Hcollision. split.
  - intros Hfalse. destruct i as [|j]; [|lia].
    assert (isChainValid (<[0%nat := mutate m b]> chain) = true) as Hpass.
    { revert Hvalid. rewrite !isChainValid_true.
      intros Hall j cur prev Hcur Hprev.
      rewrite list_lookup_insert_ne in Hcur by lia.
      destruct j as [|j].
      - rewrite list_lookup_insert_eq in Hprev by (by eapply lookup_lt_Some).
        injection Hprev as <-. rewrite hash_mutate. by apply (Hall 0%nat).
      - rewrite list_lookup_insert_ne in Hprev by lia. by apply (Hall (S j)). }
    congruence.
  - intros Hi. apply not_true_is_false. rewrite isChainValid_true. intros Hall.
    destruct i as [|j]; [lia|].
    assert (S j < length chain)%nat as Hlen by (by eapply lookup_lt_Some).
    destruct (lookup_lt_is_Some_2 chain j ltac:(lia)) as [prev Hprev].
    destruct (Hall j (mutate m b) prev) as [Hhash _].
    { by apply list_lookup_insert_eq. }
    { by rewrite list_lookup_insert_ne by lia. }
    rewrite hash_mutate in Hhash.
    rewrite isChainValid_true in Hvalid.
    destruct (Hvalid j b prev Hb Hprev) as [Hsealed _].
    apply Hcollision; [by apply preimage_mutate|].
    unfold calculateHash in Hhash, Hsealed. congruence.
Qed.

(** *** Errors of the store *)



(** *** Voting twice *)

(** C10, as the code has it.  Against a store that rejects nothing, two
    calls of [recordVoteOnBlockchain] in a row with the same election,
    candidate and voter both return [success: true], and afterwards the
    collection holds two vote blocks for that voter, the second chained
    on the first: nothing in the ledger looks for an earlier vote.  The
    condition on the store is needed: two successes alone do not give two
    blocks. *)
Theorem same_voter_recorded_twice electionId candidateId voterId
    w receipt1 w1 receipt2 w2 :
  Forall (fun f => f = None) (faults w) ->
  recordVoteOnBlockchain env fuel electionId candidateId voterId w
    = (Ret receipt1, w1) ->
  recordVoteOnBlockchain env fuel electionId candidateId voterId w1
    = (Ret receipt2, w2) ->
  exists b1 b2 voteHash1 now1 voteHash2 now2,
    receipt1 = {| success := true; transactionHash := Some (hash b1);
                  error := None |} /\
    receipt2 = {| success := true; transactionHash := Some (hash b2);
                  error := None |} /\
    data b1 = VoteData (Vote.Make "VOTE" electionId candidateId
                                  (Digest voterId) voteHash1 now1) /\
    data b2 = VoteData (Vote.Make "VOTE" electionId candidateId
                                  (Digest voterId) voteHash2 now2) /\
    index b2 = (index b1 + 1)%Z /\
    previousHash b2 = hash b1 /\
    find_doc (pretty (index b1)) (blockchain_docs w2) = Some b1 /\
    find_doc (pretty (index b2)) (blockchain_docs w2) = Some b2.
Proof.
  intros Hfaults Hrun1 Hrun2.
  destruct (recordVoteOnBlockchain_accepted _ _ _ _ _ _ Hfaults Hrun1)
    as (latest1 & b1 & vh1 & now1 & _ & _ & _ & Hd1 & Hr1 & Hdocs1 & Hfaults1 & Hmax1).
  destruct (recordVoteOnBlockchain_accepted _ _ _ _ _ _ Hfaults1 Hrun2)
    as (latest2 & b2 & vh2 & now2 & Hlast2 & Hi2 & Hp2 & Hd2 & Hr2 & Hdocs2 & _ & Hmax2).
  assert (latest2 = b1) as ->.
  { destruct Hlast2 as [Hempty|Hlast2].
    { rewrite Hdocs1 in Hempty. by apply upsert_nonempty in Hempty. }
    assert (latest2 ∈ (blockchain_docs w1).*2) as Hin.
    { apply last_Some in Hlast2 as [l' Hl'].
      assert (latest2 ∈ order_by_index (blockchain_docs w1)) as Hin.
      { rewrite Hl'. apply elem_of_app. right. by apply list_elem_of_singleton. }
      unfold order_by_index in Hin. by rewrite merge_sort_Permutation in Hin. }
    rewrite Hdocs1 in Hin. apply elem_of_upsert in Hin as [->|Hin]; [done|].
    pose proof (Hmax1 _ Hin).
    assert (index b1 < index b2)%Z.
    { apply Hmax2. rewrite Hdocs1. apply elem_of_upsert_new. }
    lia. }
  exists b1, b2, vh1, now1, vh2, now2.
  split; [done|]. split; [done|]. split; [done|]. split; [done|].
  split; [done|]. split; [done|].
  rewrite Hdocs2, Hdocs1. split.
  - rewrite find_doc_upsert_ne; [apply find_doc_upsert_eq|].
    rewrite Hi2. intros Heq. apply (inj pretty) in Heq. lia.
  - apply find_doc_upsert_eq.
Qed.

End EffectFacts.

(** ** Further properties of the ledger *)

Section MoreLedgerFacts.

Context `{HashFunction}.

Lemma mineBlock_on_target d fuel b sealed :
  mineBlock d fuel b = Some sealed -> meets_target d (hash sealed).
Proof.
  intros Hrun. destruct (decide (meets_target d (hash b))) as [Hon|Hoff].
  - rewrite mineBlock_met in Hrun by done. by injection Hrun as <-.
  - by apply mineBlock_sound in Hrun as (n & _ & -> & ? & _).
Qed.

(** X1.  [mineBlock] writes [nonce] and [hash] only, and mining the block
    it returned once more, with any bound, returns that block
    unchanged. *)
Theorem mineBlock_keeps_fields_and_settles d fuel b sealed :
  mineBlock d fuel b = Some sealed ->
  index sealed = index b /\ timestamp sealed = timestamp b /\
  data sealed = data b /\ previousHash sealed = previousHash b /\
  (nonce b <= nonce sealed)%Z /\
  forall fuel', mineBlock d fuel' sealed = Some sealed.
Proof.
  intros Hrun.
  destruct (mineBlock_fields _ _ _ _ Hrun) as (? & ? & ? & ?).
  split; [done|]. split; [done|]. split; [done|]. split; [done|]. split.
  - destruct (decide (meets_target d (hash b))) as [Hon|Hoff].
    + rewrite mineBlock_met in Hrun by done. injection Hrun as <-. lia.
    + apply mineBlock_sound in Hrun as (n & Hn & -> & _); [simpl; lia|done].
  - intros fuel'. apply mineBlock_met. by eapply mineBlock_on_target.
Qed.

(** X2.  The string that [calculateHash] digests changes whenever exactly
    one of [index], [timestamp], [data], [previousHash], [nonce] changes;
    the stored [hash] is not part of it. *)
Theorem one_changed_field_changes_the_hashed_string m b h :
  mutate m b <> b ->
  preimage (mutate m b) <> preimage b /\
  preimage (set_hash h b) = preimage b.
Proof. intros Hne. split; [by apply preimage_mutate|reflexivity]. Qed.

Lemma pretty_N_go_app x : forall s,
  pretty_N_go x s = pretty_N_go x EmptyString ++ s.
Proof.
  induction (N.lt_wf_0 x) as [x _ IH]; intros s.
  destruct (decide (x = 0)%N) as [->|Hx]; [by rewrite !pretty_N_go_0|].
  rewrite !(pretty_N_go_step x) by lia.
  rewrite (IH (x `div` 10)%N) by (apply N.div_lt; lia).
  rewrite (IH (x `div` 10)%N ltac:(apply N.div_lt; lia) (String _ EmptyString)).
  by rewrite string_app_assoc.
Qed.

Lemma pretty_N_snoc (i d : N) :
  (0 < i)%N -> (d < 10)%N ->
  pretty (10 * i + d)%N = pretty i ++ String (pretty_N_char d) EmptyString.
Proof.
  intros Hi Hd. unfold pretty, pretty_N.
  rewrite !decide_False by lia.
  rewrite pretty_N_go_step by lia.
  replace ((10 * i + d) `div` 10)%N with i
    by (apply N.div_unique with d; lia).
  replace ((10 * i + d) `mod` 10)%N with d
    by (apply N.mod_unique with i; lia).
  apply pretty_N_go_app.
Qed.

Lemma pretty_Z_snoc (i d : Z) :
  (0 < i)%Z -> (0 <= d < 10)%Z ->
  pretty (10 * i + d)%Z
  = pretty i ++ String (pretty_N_char (Z.to_N d)) EmptyString.
Proof.
  intros Hi Hd.
  assert (forall z : Z, (0 < z)%Z -> pretty z = pretty (Z.to_N z)) as Hpos.
  { intros [|p|p] Hz; try lia. reflexivity. }
  rewrite (Hpos (10 * i + d)%Z) by lia. rewrite (Hpos i) by lia.
  replace (Z.to_N (10 * i + d)) with (10 * Z.to_N i + Z.to_N d)%N by lia.
  apply pretty_N_snoc; lia.
Qed.

(** X3.  The fields are concatenated without separators, so the hash does
    not tell where [index] ends and [previousHash] begins: moving a
    leading digit of [previousHash] to the end of a positive [index]
    gives a different block with the same hash, whatever the digest. *)
Theorem digit_moved_from_previousHash_to_index (i d : Z) rest t p h n :
  (0 < i)%Z -> (0 <= d < 10)%Z ->
  let b1 := {| index := i; timestamp := t; data := p;
               previousHash := String (pretty_N_char (Z.to_N d)) rest;
               hash := h; nonce := n |} in
  let b2 := {| index := 10 * i + d; timestamp := t; data := p;
               previousHash := rest; hash := h; nonce := n |} in
  b1 <> b2 /\ calculateHash b1 = calculateHash b2.
Proof.
  intros Hi Hd b1 b2. split.
  - intros [= Hindex _]. lia.
  - unfold calculateHash, preimage. simpl. f_equal.
    rewrite pretty_Z_snoc by done.
    by rewrite string_app_assoc.
Qed.

(** [isChainValid] on a chain with one more block at the end. *)
Lemma isChainValid_last_block chain latest b :
  last chain = Some latest ->
  isChainValid (chain ++ [b]) = true <->
  isChainValid chain = true /\
  hash b = calculateHash b /\ previousHash b = hash latest.
Proof.
  intros Hlast. apply last_Some in Hlast as [front ->].
  rewrite !isChainValid_true. split.
  - intros Hall. split.
    + intros j cur prev Hcur Hprev.
      apply (Hall j); rewrite lookup_app_l; try done.
      * by eapply lookup_lt_Some.
      * by eapply lookup_lt_Some.
    + apply (Hall (length front) b latest).
      * rewrite lookup_app_r by (rewrite length_app; simpl; lia).
        rewrite length_app. simpl.
        by replace (S (length front) - (length front + 1))%nat with 0%nat by lia.
      * rewrite lookup_app_l by (rewrite length_app; simpl; lia).
        rewrite lookup_app_r by lia.
        by replace (length front - length front)%nat with 0%nat by lia.
  - intros (Hall & Hb & Hp) j cur prev Hcur Hprev.
    destruct (decide (S j < length (front ++ [latest]))%nat) as [Hlt|Hge].
    + apply (Hall j); [by rewrite lookup_app_l in Hcur|].
      by rewrite lookup_app_l in Hprev by lia.
    + assert (S j = length (front ++ [latest])) as Hj.
      { apply lookup_lt_Some in Hcur. rewrite length_app in Hcur. simpl in Hcur. lia. }
      rewrite lookup_app_r in Hcur by lia.
      rewrite Hj in Hcur.
      replace (length (front ++ [latest]) - length (front ++ [latest]))%nat
        with 0%nat in Hcur by lia.
      injection Hcur as <-.
      rewrite lookup_app_l in Hprev by lia.
      rewrite length_app in Hj. simpl in Hj.
      rewrite lookup_app_r in Hprev by lia.
      replace (j - length front)%nat with 0%nat in Hprev by lia.
      injection Hprev as <-. done.
Qed.

(** X4.  Validation of a chain with one more block at the end: the longer
    chain passes exactly when the shorter one passes and the new block
    stores the digest of its fields and names the hash of the block that
    was last. *)
Theorem isChainValid_snoc chain latest b :
  last chain = Some latest ->
  isChainValid (chain ++ [b]) = true <->
  isChainValid chain = true /\
  hash b = calculateHash b /\ previousHash b = hash latest.
Proof. apply isChainValid_last_block. Qed.

End MoreLedgerFacts.

(** ** Further properties of the effectful functions *)

Section MoreEffectFacts.

Context `{HashFunction}.
Variable env : ENV.blockchain.
Variable fuel : nat.

Ltac unfold_all_M :=
  unfold mbind, M_bind, bind, mret, M_ret, ret, try_catch, throw, unfinished.

(** X5.  [addBlock] keeps a valid chain valid at a difficulty of at least
    1: the returned block is the new last block, carries the payload, has
    the next index and names the hash of the block that was last; one
    reading of the clock and one store call are used. *)
Theorem addBlock_extends_a_valid_chain payload self w b self' w' :
  (1 <= difficulty self)%nat ->
  isChainValid (chain self) = true ->
  addBlock fuel payload self w = (Ret (b, self'), w') ->
  chain self' = (chain self ++ [b])%list /\
  difficulty self' = difficulty self /\
  isChainValid (chain self') = true /\
  data b = payload /\
  (exists latest, last (chain self) = Some latest /\
     index b = (index latest + 1)%Z /\ previousHash b = hash latest) /\
  clock w' = tl (clock w) /\ faults w' = tl (faults w).
Proof.
  intros Hd Hvalid Hrun.
  destruct (getLatestBlock self) as [latest|] eqn:Hlatest.
  2:{ unfold addBlock in Hrun. by rewrite Hlatest in Hrun. }
  rewrite (addBlock_eq _ _ _ _ _ Hlatest) in Hrun.
  destruct (mineBlock _ _ _) as [sealed|] eqn:Hmine; [|done].
  injection Hrun as <- <- <-.
  destruct (mineBlock_fields _ _ _ _ Hmine) as (Hi & _ & Hdata & Hp).
  pose proof (fun E => mineBlock_sealed _ _ _ _ Hd E Hmine) as Hsealed.
  specialize (Hsealed eq_refl).
  rewrite getLatestBlock_last in Hlatest.
  split; [done|]. split; [done|]. split.
  { simpl. apply (isChainValid_last_block _ latest); done. }
  split; [done|]. split; [by exists latest|].
  rewrite saveBlockToFirebase_eq. simpl.
  destruct (faults w) as [|[msg|] rest] eqn:Hf; simpl; by rewrite Hf.
Qed.

(** What [loadFromFirebase] leaves of the world, whatever the store does. *)
Lemma loadFromFirebase_quiet self w r w' :
  loadFromFirebase env fuel self w = (r, w') ->
  (forall msg, r <> Throw msg) /\
  blockchain_docs w' = blockchain_docs w /\
  elections w' = elections w /\
  transactions w' = transactions w /\
  faults w' = tl (faults w) /\
  forall bc, r = Ret bc -> chain bc <> [] /\ difficulty bc = difficulty self.
Proof.
  rewrite loadFromFirebase_eq.
  assert (forall loaded, loaded = [] ->
    createGenesisBlock env fuel (set_chain loaded self) (next_fault w) = (r, w') ->
    (forall msg, r <> Throw msg) /\
    blockchain_docs w' = blockchain_docs w /\ elections w' = elections w /\
    transactions w' = transactions w /\ faults w' = faults (next_fault w) /\
    forall bc, r = Ret bc -> chain bc <> [] /\ difficulty bc = difficulty self)
    as Hgenesis.
  { intros loaded ->. rewrite createGenesisBlock_eq.
    destruct (mineBlock _ _ _) as [g|]; intros [= <- <-];
      (split; [done|]); repeat (split; [done|]).
    - by intros bc [= <-].
    - done. }
  assert (forall loaded, loaded <> [] ->
    (Ret (set_chain loaded self), next_fault w) = (r, w') ->
    (forall msg, r <> Throw msg) /\
    blockchain_docs w' = blockchain_docs w /\ elections w' = elections w /\
    transactions w' = transactions w /\ faults w' = faults (next_fault w) /\
    forall bc, r = Ret bc -> chain bc <> [] /\ difficulty bc = difficulty self)
    as Hloaded.
  { intros loaded Hne [= <- <-].
    split; [done|]. repeat (split; [done|]). by intros bc [= <-]. }
  change (tl (faults w)) with (faults (next_fault w)).
  destruct (faults w) as [|[msg|] rest]; simpl.
  - case_bool_decide as Hlen.
    + apply Hgenesis. by apply nil_length_inv.
    + apply Hloaded. intros Hnil. by rewrite Hnil in Hlen.
  - by apply Hgenesis.
  - case_bool_decide as Hlen.
    + apply Hgenesis. by apply nil_length_inv.
    + apply Hloaded. intros Hnil. by rewrite Hnil in Hlen.
Qed.

(** X6.  [loadFromFirebase] never throws and never writes: whatever the
    store does, the collections are what they were, one store call is
    used, and a ledger it returns has a chain that is not empty and the
    difficulty it had. *)
Theorem loadFromFirebase_never_throws_never_writes self w r w' :
  loadFromFirebase env fuel self w = (r, w') ->
  (forall msg, r <> Throw msg) /\
  blockchain_docs w' = blockchain_docs w /\
  elections w' = elections w /\
  transactions w' = transactions w /\
  faults w' = tl (faults w) /\
  forall bc, r = Ret bc -> chain bc <> [] /\ difficulty bc = difficulty self.
Proof. apply loadFromFirebase_quiet. Qed.

(** X25.  A fresh ledger after [N] appends, whenever its mining loops
    end: the chain has [N + 1] blocks with the indices 0 to [N], each block
    names the hash of the one before, the payloads are those appended, in
    that order, and at a difficulty of at least 1 the chain validates. *)
Theorem fresh_ledger_grows_as_appended payloads w bc w' :
  fresh_ledger env fuel payloads w = (Ret bc, w') ->
  length (chain bc) = S (length payloads) /\
  (forall j b, chain bc !! j = Some b -> index b = Z.of_nat j) /\
  (forall j cur prev, chain bc !! S j = Some cur -> chain bc !! j = Some prev ->
     previousHash cur = hash prev) /\
  map data (tail (chain bc)) = payloads /\
  ((1 <= ENV.difficulty env)%nat -> isChainValid (chain bc) = true).
Proof. apply fresh_ledger_shape. Qed.



Lemma order_by_index_length docs : length (order_by_index docs) = length docs.
Proof.
  unfold order_by_index. rewrite merge_sort_Permutation. apply length_fmap.
Qed.






(** *** Initialising the collection *)

Lemma initializeBlockchain_eq w :
  initializeBlockchain env fuel w =
  match faults w with
  | Some msg :: _ =>
      (Ret {| init_success := false; init_message := None;
              init_error := Some msg |}, next_fault w)
  | _ =>
      if bool_decide (length (order_by_index (blockchain_docs w)) = 0%nat)
      then
        match mineBlock (ENV.difficulty env) fuel
                (genesisBlock env (hd 0%Z (clock w))) with
        | None => (Unfinished, advance_clock (next_fault w))
        | Some g =>
            (Ret {| init_success := true;
                    init_message := Some "Blockchain initialized with genesis block";
                    init_error := None |},
             (saveBlockToFirebase g (advance_clock (next_fault w))).2)
        end
      else
        (Ret {| init_success := true;
                init_message := Some "Blockchain already initialized";
                init_error := None |}, next_fault w)
  end.
Proof.
  unfold initializeBlockchain, getDocs_blockchain, store_call. unfold_all_M.
  destruct (faults w) as [|[msg|] rest]; simpl; try done;
    case_bool_decide; try done;
    rewrite new_Blockchain_eq, createGenesisBlock_eq; simpl;
    (destruct (mineBlock _ _ _) as [g|]; [|done]); simpl;
    by rewrite saveBlockToFirebase_eq.
Qed.

(** X10.  [initializeBlockchain] on a collection that holds a document:
    nothing is mined or written, the answer is "already initialized". *)
Theorem initializeBlockchain_leaves_a_collection_alone w :
  (forall msg, head (faults w) <> Some (Some msg)) ->
  blockchain_docs w <> [] ->
  initializeBlockchain env fuel w =
  (Ret {| init_success := true;
          init_message := Some "Blockchain already initialized";
          init_error := None |}, next_fault w).
Proof.
  intros Hno Hnonempty. rewrite initializeBlockchain_eq.
  rewrite bool_decide_eq_false_2.
  - destruct (faults w) as [|[msg|] rest]; try done. by destruct (Hno msg).
  - rewrite order_by_index_length. by destruct (blockchain_docs w).
Qed.

(** X11.  [initializeBlockchain] is the one function of the ledger that
    reports a rejected query: the answer is [success: false] with the
    message of the store, and nothing is mined or written. *)
Theorem initializeBlockchain_reports_a_rejected_query w msg :
  head (faults w) = Some (Some msg) ->
  initializeBlockchain env fuel w =
  (Ret {| init_success := false; init_message := None;
          init_error := Some msg |}, next_fault w).
Proof.
  intros Hmsg. rewrite initializeBlockchain_eq.
  destruct (faults w) as [|[msg'|] rest]; try done. by injection Hmsg as ->.
Qed.



(** One call of [recordVoteOnBlockchain] against a store that rejects
    nothing, with what it leaves of the other collections and the hash of
    the block. *)
Lemma recordVoteOnBlockchain_accepted_detail
    electionId candidateId voterId w receipt w1 :
  Forall (fun f => f = None) (faults w) ->
  recordVoteOnBlockchain env fuel electionId candidateId voterId w
    = (Ret receipt, w1) ->
  exists latest b voteHash now,
    (blockchain_docs w = [] /\ index latest = 0%Z \/
     blockchain_docs w <> [] /\
     last (order_by_index (blockchain_docs w)) = Some latest) /\
    index b = (index latest + 1)%Z /\
    previousHash b = hash latest /\
    data b = VoteData (Vote.Make "VOTE" electionId candidateId
                                 (Digest voterId) voteHash now) /\
    ((1 <= ENV.difficulty env)%nat -> hash b = calculateHash b) /\
    receipt = {| success := true; transactionHash := Some (hash b);
                 error := None |} /\
    blockchain_docs w1 = upsert (pretty (index b)) b (blockchain_docs w) /\
    Forall (fun f => f = None) (faults w1) /\
    elections w1 = elections w /\
    transactions w1 = transactions w.
Proof.
  intros Hfaults Hrun.
  destruct (recordVoteOnBlockchain_run _ _ _ _ _ _ _ _ Hrun)
    as [?|(g0 & bc & w2 & latest & voteHash & now & b & Hload & Hlatest
           & Hmine & Hr & Hw1)]; [done|].
  injection Hr as ->.
  destruct (loadFromFirebase_quiet _ _ _ _ Hload)
    as (_ & Hdocs & Hel & Htx & Hf2 & _).
  destruct (loadFromFirebase_run _ _ _ _ _ _ Hload)
    as [?|(bc' & [= <-] & _ & _ & _ & _ & Hcases)]; [done|].
  simpl in Hdocs, Hf2, Hel, Htx.
  destruct (mineBlock_fields _ _ _ _ Hmine) as (Hi & _ & Hd & Hp).
  simpl in Hi, Hd, Hp.
  pose proof (fun Hpos E => mineBlock_sealed _ _ _ _ Hpos E Hmine) as Hsealed.
  rewrite saveBlockToFirebase_eq in Hw1. simpl in Hw1. rewrite Hf2, Hdocs in Hw1.
  assert (Forall (fun f => f = None) (tl (faults w))) as Htl
    by by apply Forall_None_tail.
  exists latest, b, voteHash, now. split.
  { destruct Hcases as [([[msg Hmsg]|Hempty] & (g & Hchain & Hg) & _)
                       |(_ & Hnonempty & Hchain & _)]; simpl in *.
    - by apply Forall_None_head in Hmsg.
    - left. split; [done|].
      rewrite getLatestBlock_last, Hchain in Hlatest. injection Hlatest as <-.
      by destruct (mineBlock_fields _ _ _ _ Hg) as (? & _).
    - right. split; [done|]. by rewrite <- Hchain, <- getLatestBlock_last. }
  split; [done|]. split; [done|]. split; [done|].
  split; [intros Hpos; by apply Hsealed|]. split; [done|].
  subst w1.
  destruct (tl (faults w)) as [|[msg|] rest] eqn:Hrest; simpl;
    rewrite ?Hf2, ?Hel, ?Htx; simpl.
  - done.
  - by apply Forall_cons in Htl as [? _].
  - split; [done|]. split; [|done]. by apply Forall_cons in Htl as [_ ?].
Qed.



End MoreEffectFacts.

(** ** The vote in the election document: [castVote] *)

Section CastVoteFacts.

Ltac unfold_cast :=
  unfold castVote, getDoc_election, setDoc_transaction, updateDoc_election,
    getTime;
  unfold mbind, M_bind, bind, mret, M_ret, ret, try_catch, throw.

Lemma store_call_accepted w :
  (forall msg, head (faults w) <> Some (Some msg)) ->
  store_call w = (Ret tt, next_fault w).
Proof.
  intros Hno. unfold store_call.
  destruct (faults w) as [|[msg|] rest]; try done. by destruct (Hno msg).
Qed.

Lemma store_call_rejected w msg :
  head (faults w) = Some (Some msg) ->
  store_call w = (Throw msg, next_fault w).
Proof.
  intros Hmsg. unfold store_call.
  destruct (faults w) as [|[msg'|] rest]; try done. by injection Hmsg as ->.
Qed.

(** The duplicate check of [castVote]. *)
Lemma castVote_duplicate
    electionId candidateId voterId voteHash w electionData :
  (forall msg, head (faults w) <> Some (Some msg)) ->
  find_doc electionId (elections w) = Some electionData ->
  voterId ∈ voters electionData ->
  castVote electionId candidateId voterId voteHash w =
  (Ret (CastError "You have already voted in this election"), next_fault w).
Proof.
  intros Hno Hdoc Hvoted. unfold_cast.
  rewrite store_call_accepted by done. simpl. rewrite Hdoc.
  by rewrite bool_decide_eq_true_2.
Qed.

(** X15.  [castVote] refuses a voter whose id is in [voters]: the answer
    is the error of the duplicate check and neither the election document
    nor the transactions are written. *)
Theorem castVote_refuses_a_voter_on_record
    electionId candidateId voterId voteHash w electionData :
  (forall msg, head (faults w) <> Some (Some msg)) ->
  find_doc electionId (elections w) = Some electionData ->
  voterId ∈ voters electionData ->
  castVote electionId candidateId voterId voteHash w =
  (Ret (CastError "You have already voted in this election"), next_fault w).
Proof. apply castVote_duplicate. Qed.

(** X16.  [castVote] for an election that has no document answers
    "Election not found" and writes nothing. *)
Theorem castVote_election_not_found electionId candidateId voterId voteHash w :
  (forall msg, head (faults w) <> Some (Some msg)) ->
  find_doc electionId (elections w) = None ->
  castVote electionId candidateId voterId voteHash w =
  (Ret (CastError "Election not found"), next_fault w).
Proof.
  intros Hno Hdoc. unfold_cast.
  rewrite store_call_accepted by done. simpl. by rewrite Hdoc.
Qed.

(** X17.  [castVote] returns the error of the store when the read of the
    election document is rejected, and writes nothing. *)
Theorem castVote_reports_a_rejected_read
    electionId candidateId voterId voteHash w msg :
  head (faults w) = Some (Some msg) ->
  castVote electionId candidateId voterId voteHash w =
  (Ret (CastError msg), next_fault w).
Proof.
  intros Hmsg. unfold_cast. by rewrite (store_call_rejected _ msg).
Qed.

Lemma accepted_next w :
  Forall (fun f => f = None) (faults w) ->
  (forall msg, head (faults w) <> Some (Some msg)) /\
  Forall (fun f => f = None) (faults (next_fault w)).
Proof.
  intros Hf. split.
  - intros msg. destruct (faults w) as [|f rest]; [done|].
    by apply Forall_cons in Hf as [-> _].
  - simpl. destruct (faults w) as [|f rest]; [done|].
    by apply Forall_cons in Hf as [_ ?].
Qed.

(** The world after the three store calls of a counted vote. *)
Lemma castVote_counted
    electionId candidateId voterId voteHash w electionData count :
  Forall (fun f => f = None) (faults w) ->
  find_doc electionId (elections w) = Some electionData ->
  voterId ∉ voters electionData ->
  candidate_voteCount (candidates electionData) (candidateId - 1) = Some count ->
  castVote electionId candidateId voterId voteHash w =
  (Ret CastSuccess,
   set_elections
     (upsert electionId
        {| candidates :=
             set_candidate_voteCount (candidateId - 1) (count + 1)
                                     (candidates electionData);
           voters := voters electionData ++ [voterId] |}
        (elections w))
     (next_fault
        (set_transactions
           (transactions w ++
            [{| tx_electionId := electionId; tx_candidateId := candidateId;
                tx_voterId := voterId; tx_voteHash := voteHash;
                tx_timestamp := hd 0%Z (clock w) |}])
           (next_fault (advance_clock (next_fault w)))))).
Proof.
  intros Hf Hdoc Hnew Hcount.
  destruct (accepted_next _ Hf) as [Hno1 Hf1].
  assert (Forall (fun f => f = None)
            (faults (advance_clock (next_fault w)))) as Hf1' by done.
  destruct (accepted_next _ Hf1') as [Hno2 Hf2].
  set (t := {| tx_electionId := electionId; tx_candidateId := candidateId;
               tx_voterId := voterId; tx_voteHash := voteHash;
               tx_timestamp := hd 0%Z (clock w) |}).
  set (w2 := set_transactions (transactions w ++ [t])
               (next_fault (advance_clock (next_fault w)))).
  assert (Forall (fun f => f = None) (faults w2)) as Hf2' by done.
  destruct (accepted_next _ Hf2') as [Hno3 _].
  unfold_cast. rewrite store_call_accepted by done. simpl. rewrite Hdoc.
  rewrite bool_decide_eq_false_2 by done. simpl.
  rewrite store_call_accepted by done. simpl.
  rewrite Hcount.
  fold t. fold w2. rewrite (store_call_accepted w2) by done. simpl.
  rewrite Hdoc. rewrite bool_decide_eq_false_2 by done. reflexivity.
Qed.

(** The world after the two store calls of a vote for an entry of
    [candidates] that is [undefined]. *)
Lemma castVote_undefined_candidate
    electionId candidateId voterId voteHash w electionData :
  Forall (fun f => f = None) (faults w) ->
  find_doc electionId (elections w) = Some electionData ->
  voterId ∉ voters electionData ->
  candidate_voteCount (candidates electionData) (candidateId - 1) = None ->
  castVote electionId candidateId voterId voteHash w =
  (Ret (CastError "Cannot read properties of undefined (reading 'voteCount')"),
   set_transactions
     (transactions w ++
      [{| tx_electionId := electionId; tx_candidateId := candidateId;
          tx_voterId := voterId; tx_voteHash := voteHash;
          tx_timestamp := hd 0%Z (clock w) |}])
     (next_fault (advance_clock (next_fault w)))).
Proof.
  intros Hf Hdoc Hnew Hcount.
  destruct (accepted_next _ Hf) as [Hno1 Hf1].
  assert (Forall (fun f => f = None)
            (faults (advance_clock (next_fault w)))) as Hf1' by done.
  destruct (accepted_next _ Hf1') as [Hno2 _].
  unfold_cast. rewrite store_call_accepted by done. simpl. rewrite Hdoc.
  rewrite bool_decide_eq_false_2 by done. simpl.
  rewrite store_call_accepted by done. simpl.
  by rewrite Hcount.
Qed.

(** What an update through the field path leaves of the counts. *)
Lemma candidate_voteCount_set k count c :
  candidate_voteCount (set_candidate_voteCount k count c) k = Some count /\
  forall k', k' <> k ->
    candidate_voteCount (set_candidate_voteCount k count c) k' =
    match c with
    | CandidateArray _ => None
    | CandidateMap counts => counts !! k'
    end.
Proof.
  destruct c as [counts|counts]; simpl.
  - split; [apply lookup_singleton_eq|].
    intros k' Hk'. by apply lookup_singleton_ne.
  - split; [apply lookup_insert_eq|].
    intros k' Hk'. by apply lookup_insert_ne.
Qed.

(** X18.  A counted vote.  The store rejecting nothing, the election on
    record, the voter not among [voters] and the entry of the candidate
    present, [castVote] succeeds: the count of that candidate is one
    more, the voter is added to [voters], one transaction with the given
    vote hash is added, and the other election documents and the ledger
    are not touched.  The count is written through the field path
    [candidates.<k>.voteCount]: where the document held a map, the
    entries of the other keys are kept; where it held the array that
    [createElection] writes, the field is a map with that one key
    afterwards, and the entries of the other candidates are gone. *)
Theorem castVote_counts_one_vote
    electionId candidateId voterId voteHash w electionData count :
  Forall (fun f => f = None) (faults w) ->
  find_doc electionId (elections w) = Some electionData ->
  voterId ∉ voters electionData ->
  candidate_voteCount (candidates electionData) (candidateId - 1) = Some count ->
  exists w' electionData',
    castVote electionId candidateId voterId voteHash w = (Ret CastSuccess, w') /\
    find_doc electionId (elections w') = Some electionData' /\
    candidate_voteCount (candidates electionData') (candidateId - 1)
      = Some (count + 1)%Z /\
    (forall k, k <> (candidateId - 1)%Z ->
       candidate_voteCount (candidates electionData') k =
       match candidates electionData with
       | CandidateArray _ => None
       | CandidateMap counts => counts !! k
       end) /\
    voters electionData' = (voters electionData ++ [voterId])%list /\
    (forall other, other <> electionId ->
       find_doc other (elections w') = find_doc other (elections w)) /\
    transactions w' =
      (transactions w ++
       [{| tx_electionId := electionId; tx_candidateId := candidateId;
           tx_voterId := voterId; tx_voteHash := voteHash;
           tx_timestamp := hd 0%Z (clock w) |}])%list /\
    blockchain_docs w' = blockchain_docs w.
Proof.
  intros Hf Hdoc Hnew Hcount. do 2 eexists.
  split; [by apply (castVote_counted _ _ _ _ _ electionData count)|]. simpl.
  split; [apply find_doc_upsert_eq|]. simpl.
  destruct (candidate_voteCount_set (candidateId - 1) (count + 1)
              (candidates electionData)) as [Hk Hothers].
  split; [done|]. split; [done|]. split; [done|]. split; [|done].
  intros other Hother. by apply find_doc_upsert_ne.
Qed.

(** X19.  A vote for a candidate that the election does not have: the
    transaction is written before the count is looked up, so [castVote]
    answers with an error after it has added a transaction, while the
    election document (counts and voters) is left as it was. *)
Theorem castVote_unknown_candidate_leaves_a_transaction
    electionId candidateId voterId voteHash w electionData :
  Forall (fun f => f = None) (faults w) ->
  find_doc electionId (elections w) = Some electionData ->
  voterId ∉ voters electionData ->
  candidate_voteCount (candidates electionData) (candidateId - 1) = None ->
  exists message w',
    castVote electionId candidateId voterId voteHash w
      = (Ret (CastError message), w') /\
    elections w' = elections w /\
    transactions w' =
      (transactions w ++
       [{| tx_electionId := electionId; tx_candidateId := candidateId;
           tx_voterId := voterId; tx_voteHash := voteHash;
           tx_timestamp := hd 0%Z (clock w) |}])%list.
Proof.
  intros Hf Hdoc Hnew Hcount. do 2 eexists.
  split; [by apply (castVote_undefined_candidate _ _ _ _ _ electionData)|]. done.
Qed.

(** X20.  [castVote] counts a voter at most once: after a counted vote,
    every further call for that voter in that election, for whatever
    candidate, is refused by the duplicate check. *)
Theorem castVote_at_most_once
    electionId candidateId voterId voteHash w electionData count
    candidateId' voteHash' :
  Forall (fun f => f = None) (faults w) ->
  find_doc electionId (elections w) = Some electionData ->
  voterId ∉ voters electionData ->
  candidate_voteCount (candidates electionData) (candidateId - 1) = Some count ->
  exists w',
    castVote electionId candidateId voterId voteHash w = (Ret CastSuccess, w') /\
    castVote electionId candidateId' voterId voteHash' w' =
    (Ret (CastError "You have already voted in this election"), next_fault w').
Proof.
  intros Hf Hdoc Hnew Hcount. eexists.
  split; [by apply (castVote_counted _ _ _ _ _ electionData count)|].
  eapply castVote_duplicate.
  - intros msg. simpl. apply Forall_None_head.
    by do 3 apply Forall_None_tail.
  - simpl. apply find_doc_upsert_eq.
  - simpl. apply elem_of_app. right. by apply list_elem_of_singleton.
Qed.

(** X26.  An election as [createElection] writes it, with [candidates] an
    array: after the first counted vote the field is a map with the entry
    of that candidate alone, so the vote of another voter for any other
    candidate finds no entry; [castVote] answers with an error after it
    has added the transaction, and the election document stays as the
    first vote left it. *)
Theorem castVote_first_vote_drops_the_other_candidates
    electionId candidateId voterId voteHash w counts voted count
    candidateId' voterId' voteHash' :
  Forall (fun f => f = None) (faults w) ->
  find_doc electionId (elections w)
    = Some {| candidates := CandidateArray counts; voters := voted |} ->
  voterId ∉ voted ->
  candidate_voteCount (CandidateArray counts) (candidateId - 1) = Some count ->
  voterId' ∉ voted -> voterId' <> voterId ->
  candidateId' <> candidateId ->
  exists w' message w'',
    castVote electionId candidateId voterId voteHash w = (Ret CastSuccess, w') /\
    castVote electionId candidateId' voterId' voteHash' w'
      = (Ret (CastError message), w'') /\
    elections w'' = elections w' /\
    find_doc electionId (elections w'')
      = Some {| candidates := CandidateMap {[ (candidateId - 1)%Z := (count + 1)%Z ]};
                voters := voted ++ [voterId] |} /\
    transactions w'' =
      (transactions w ++
       [{| tx_electionId := electionId; tx_candidateId := candidateId;
           tx_voterId := voterId; tx_voteHash := voteHash;
           tx_timestamp := hd 0%Z (clock w) |};
        {| tx_electionId := electionId; tx_candidateId := candidateId';
           tx_voterId := voterId'; tx_voteHash := voteHash';
           tx_timestamp := hd 0%Z (tl (clock w)) |}])%list.
Proof.
  intros Hf Hdoc Hnew Hcount Hnew' Hother Hcandidate. do 3 eexists.
  split; [by apply (castVote_counted _ _ _ _ _ _ count Hf Hdoc)|].
  split.
  - eapply castVote_undefined_candidate.
    + simpl. by do 3 apply Forall_None_tail.
    + simpl. apply find_doc_upsert_eq.
    + simpl. intros Hin. apply elem_of_app in Hin as [Hin|Hin]; [done|].
      by apply list_elem_of_singleton in Hin.
    + simpl. apply lookup_singleton_ne. lia.
  - simpl. split; [done|]. split; [apply find_doc_upsert_eq|].
    by rewrite <- app_assoc.
Qed.

End CastVoteFacts.

(** ** The voting screen and the results screen *)

Section ScreenFacts.

Context `{HashFunction}.
Variable env : ENV.blockchain.
Variable fuel : nat.

(** X21.  The voting screen with a candidate selected, for a voter
    already on record, the store rejecting nothing: the screen shows the
    error of the duplicate check, but by then [recordVoteOnBlockchain] has
    run, and a vote block for that voter, with an index above that of
    every stored block, has been written to the collection of the ledger;
    the election document and the transactions are as they were. *)
Theorem handleCastVote_checks_after_the_block_is_stored
    electionId selectedCandidate uid w electionData alert w' :
  selectedCandidate <> 0%Z ->
  Forall (fun f => f = None) (faults w) ->
  find_doc electionId (elections w) = Some electionData ->
  uid ∈ voters electionData ->
  handleCastVote env fuel electionId selectedCandidate uid w = (Ret alert, w') ->
  alert = AlertError "You have already voted in this election" /\
  elections w' = elections w /\
  transactions w' = transactions w /\
  exists b voteHash now,
    blockchain_docs w' = upsert (pretty (index b)) b (blockchain_docs w) /\
    data b = VoteData (Vote.Make "VOTE" electionId selectedCandidate
                                 (Digest uid) voteHash now) /\
    (forall x, x ∈ (blockchain_docs w).*2 -> (index x < index b)%Z).
Proof.
  intros _ Hf Hdoc Hvoted. unfold handleCastVote, createVoteHash, getTime.
  unfold mbind, M_bind, bind, mret, M_ret, ret, try_catch, throw. simpl.
  destruct (recordVoteOnBlockchain env fuel electionId selectedCandidate uid
              (advance_clock w)) as [r1 w1] eqn:Hrecord.
  destruct (recordVoteOnBlockchain_run _ _ _ _ _ _ _ _ Hrecord)
    as [->|(_ & _ & _ & _ & _ & _ & sealed & _ & _ & _ & Hr1 & _)]; [done|].
  rewrite Hr1 in Hrecord |- *. simpl.
  assert (Forall (fun f => f = None) (faults (advance_clock w))) as Hf0 by done.
  destruct (recordVoteOnBlockchain_accepted_detail _ _ _ _ _ _ _ _ Hf0 Hrecord)
    as (latest & b & vh & now & _ & _ & _ & Hdata & _ & _ & Hdocs & Hf1 & Hel
        & Htx).
  destruct (recordVoteOnBlockchain_accepted _ _ _ _ _ _ _ _ Hf0 Hrecord)
    as (latest' & b' & vh' & now' & _ & _ & _ & Hdata' & _ & Hdocs' & _ & Hmax).
  simpl in Hel, Htx, Hdocs, Hdocs', Hmax.
  rewrite (castVote_duplicate _ _ _ _ _ electionData).
  - simpl. intros [= <- <-]. simpl. split; [done|]. split; [done|]. split; [done|].
    exists b', vh', now'. done.
  - intros msg. by apply Forall_None_head.
  - by rewrite Hel.
  - done.
Qed.

End ScreenFacts.

Section VerifyVoteCountsFacts.

Lemma count_vote_lookup m vote k :
  default 0%Z (count_vote m vote !! k) =
  (default 0 (m !! k) + votes_for k [vote])%Z.
Proof.
  unfold count_vote, votes_for. rewrite filter_cons, filter_nil.
  destruct (decide (vr_candidateId vote = k)) as [Heq|Hne].
  - subst k. rewrite lookup_insert_eq. reflexivity.
  - rewrite lookup_insert_ne by done. simpl. by rewrite Z.add_0_r.
Qed.

Lemma counted_votes votes : forall m k,
  default 0%Z (foldl count_vote m votes !! k) =
  (default 0 (m !! k) + votes_for k votes)%Z.
Proof.
  induction votes as [|vote votes IH]; intros m k; simpl.
  - unfold votes_for. simpl. by rewrite Z.add_0_r.
  - rewrite IH, count_vote_lookup. unfold votes_for.
    change (vote :: votes) with ([vote] ++ votes)%list.
    rewrite filter_app, length_app, Nat2Z.inj_add. by rewrite Z.add_assoc.
Qed.

Lemma counted_votes_empty votes k :
  default 0%Z (foldl count_vote ∅ votes !! k) = votes_for k votes.
Proof.
  rewrite counted_votes, lookup_empty.
  change (default 0%Z None) with 0%Z. apply Z.add_0_l.
Qed.

Lemma compare_counts_true m candidates :
  compare_counts m candidates = true <->
  Forall (fun c => default 0%Z (m !! id c) = voteCount c) candidates.
Proof.
  induction candidates as [|c candidates IH]; simpl.
  - split; [constructor|done].
  - case_bool_decide as Hc.
    + split; [done|]. intros Hall. by apply Forall_cons in Hall as [? _].
    + rewrite IH. split.
      * intros Hall. constructor; [|done].
        destruct (decide (default 0%Z (m !! id c) = voteCount c)); [done|].
        by destruct Hc.
      * intros Hall. by apply Forall_cons in Hall as [_ ?].
Qed.

(** [verifyVoteCounts] through [votes_for]. *)
Lemma verifyVoteCounts_iff candidates votes :
  verifyVoteCounts candidates votes = true <->
  candidates <> [] /\
  Forall (fun c => votes_for (id c) votes = voteCount c) candidates.
Proof.
  unfold verifyVoteCounts. case_bool_decide as Hlen.
  - split; [done|]. intros [Hne _]. by apply nil_length_inv in Hlen.
  - rewrite compare_counts_true. split.
    + intros Hall. split; [intros ->; done|].
      eapply Forall_impl; [exact Hall|]. intros c Hc. simpl in Hc.
      by rewrite counted_votes_empty in Hc.
    + intros [_ Hall]. eapply Forall_impl; [exact Hall|]. intros c Hc. simpl.
      by rewrite counted_votes_empty.
Qed.

(** X22.  [verifyVoteCounts] answers [true] exactly when there is at
    least one candidate and, for every candidate, the number of vote
    records that name its id equals its [voteCount]. *)
Theorem verifyVoteCounts_true candidates votes :
  verifyVoteCounts candidates votes = true <->
  candidates <> [] /\
  Forall (fun c => votes_for (id c) votes = voteCount c) candidates.
Proof. apply verifyVoteCounts_iff. Qed.

Lemma verifyVoteCounts_ext candidates votes votes' :
  (forall c, c ∈ candidates -> votes_for (id c) votes = votes_for (id c) votes') ->
  verifyVoteCounts candidates votes = verifyVoteCounts candidates votes'.
Proof.
  intros Hsame. apply eq_true_iff_eq. rewrite !verifyVoteCounts_iff.
  rewrite !Forall_forall.
  split; intros [Hne Hall]; (split; [done|]); intros c Hc;
    specialize (Hall c Hc); specialize (Hsame c Hc); congruence.
Qed.

(** X23.  Vote records for an id that no candidate has do not count: with
    or without such a record the answer of [verifyVoteCounts] is the
    same. *)
Theorem verifyVoteCounts_ignores_unlisted_candidates
    candidates votes1 vote votes2 :
  (forall c, c ∈ candidates -> id c <> vr_candidateId vote) ->
  verifyVoteCounts candidates (votes1 ++ vote :: votes2) =
  verifyVoteCounts candidates (votes1 ++ votes2).
Proof.
  intros Hunlisted. apply verifyVoteCounts_ext. intros c Hc.
  unfold votes_for. rewrite !filter_app, filter_cons.
  rewrite decide_False; [done|]. intros Heq. by apply (Hunlisted c Hc).
Qed.

(** X24.  The answer of [verifyVoteCounts] does not depend on the order
    of the vote records. *)
Theorem verifyVoteCounts_order_of_votes candidates votes votes' :
  votes ≡ₚ votes' ->
  verifyVoteCounts candidates votes = verifyVoteCounts candidates votes'.
Proof.
  intros Hperm. apply verifyVoteCounts_ext. intros c _.
  unfold votes_for. by rewrite Hperm.
Qed.

End VerifyVoteCountsFacts.

(** ** Runs with SHA-256 *)

Local Existing Instance SHA256_hex.

Example round_constants :
  length SHA256.K = 64%nat /\
  head SHA256.K = Some 0x428a2f98%N /\ last SHA256.K = Some 0xc67178f2%N.
Proof. vm_compute. repeat split. Qed.

Example sha256_abc :
  SHA256.sha256 "abc"
  = "ba7816bf8f01cfea414140de5dae2223b00361a396177a9cb410ff61f20015ad".
Proof. vm_compute. reflexivity. Qed.

Example sha256_empty :
  SHA256.sha256 EmptyString
  = "e3b0c44298fc1c149afbf4c8996fb92427ae41e4649b934ca495991b7852b855".
Proof. vm_compute. reflexivity. Qed.

Example sha256_two_blocks :
  SHA256.sha256 "abcdbcdecdefdefgefghfghighijhijkijkljklmklmnlmnomnopnopq"
  = "248d6a61d20638b8e5c026930c3e6039a33ce45964ff2167f6ecedd419db06c1".
Proof. vm_compute. reflexivity. Qed.

Lemma sha256_length s : String.length (SHA256.sha256 s) = 64%nat.
Proof. reflexivity. Qed.

Lemma sha256_nonempty s : Digest s <> EmptyString.
Proof.
  intros Heq. apply (f_equal String.length) in Heq.
  change (Digest s) with (SHA256.sha256 s) in Heq.
  by rewrite sha256_length in Heq.
Qed.

Example stored_genesis_sealed :
  mineBlock 2 10 (genesisBlock default_env 1700000000019) = Some stored_genesis.
Proof. vm_compute. reflexivity. Qed.

(** *** Mining *)

(** C5 fails as stated.  With the default configuration and the clock at
    1700000010993 the digest of the genesis candidate at nonce 0 starts
    with two zeros, yet the block is sealed with nonce 2: nonce 0 is never
    tried. *)
Lemma nonce_zero_on_target_not_taken :
  let block := genesisBlock default_env 1700000010993 in
  calculateHash (set_nonce 0 block)
    = "00bef057e902b7ae39992d6a283c0c0e6b33c100c179b0b99cbc448eb5e976ee" /\
  meets_target 2 (calculateHash (set_nonce 0 block)) /\
  mineBlock 2 10 block
    = Some {| index := 0; timestamp := 1700000010993;
              data := Genesis "Blockchain Voting System Genesis Block";
              previousHash := "0";
              hash := "00d88dc692de553569fc2755364b9709f0eb500b2bdfe22c3b659bcfa50b1877";
              nonce := 2 |}.
Proof. vm_compute. repeat split. Qed.

(** The first nonce above 0 at work on that block. *)
Lemma mineBlock_first_nonce_above_witness :
  mineBlock 2 10 (genesisBlock default_env 1700000010993)
    = Some (with_nonce (genesisBlock default_env 1700000010993) 2) <->
  exists n, (0 < n <= 0 + Z.of_nat 10)%Z /\
    with_nonce (genesisBlock default_env 1700000010993) 2
      = with_nonce (genesisBlock default_env 1700000010993) n /\
    meets_target 2
      (calculateHash (set_nonce n (genesisBlock default_env 1700000010993))) /\
    forall m, (0 < m < n)%Z ->
      ~ meets_target 2
          (calculateHash (set_nonce m (genesisBlock default_env 1700000010993))).
Proof.
  apply (mineBlock_first_nonce_above 2 10
           (genesisBlock default_env 1700000010993)).
  vm_compute. discriminate.
Defined.

(** C8 fails as stated.  A SHA-256 digest has 64 characters, so at
    difficulty 65 no amount of iterations seals the genesis candidate. *)
Lemma mining_does_not_end_at_difficulty_65 :
  ~ exists fuel sealed,
      mineBlock 65 fuel (genesisBlock default_env 1700000010993) = Some sealed.
Proof.
  intros (fuel & sealed & Hrun).
  rewrite mineBlock_never in Hrun; [discriminate| |].
  - intros s Hm. apply meets_target_length in Hm.
    change (Digest s) with (SHA256.sha256 s) in Hm.
    rewrite sha256_length in Hm. lia.
  - vm_compute. discriminate.
Qed.

(** The loop and its target at the default difficulty. *)
Lemma mineBlock_ends_iff_target_reachable_witness :
  ((exists fuel sealed,
      mineBlock 2 fuel (genesisBlock default_env 1700000010993) = Some sealed) <->
   (exists n, (0 < n)%Z /\
      meets_target 2
        (calculateHash (set_nonce n (genesisBlock default_env 1700000010993))))) /\
  (forall fuel sealed,
     mineBlock 2 fuel (genesisBlock default_env 1700000010993) = Some sealed ->
     (2 <= leading_zeros (hash sealed))%nat /\
     hash sealed = calculateHash sealed) /\
  ((forall s, (String.length (Digest s) < 2)%nat) ->
   forall fuel, mineBlock 2 fuel (genesisBlock default_env 1700000010993) = None).
Proof.
  apply (mineBlock_ends_iff_target_reachable 2
           (genesisBlock default_env 1700000010993)); [lia|reflexivity].
Defined.

(** *** Validation *)

(** C2 fails as stated.  [isChainValid] accepts [unchecked_chain], which
    the validator of the specification rejects at difficulty 2: its block
    0 is no genesis block, its indices do not follow each other and the
    hash of block 1 is off target. *)
Lemma isChainValid_accepts_unchecked_chain :
  isChainValid unchecked_chain = true /\
  spec_isValid 2 unchecked_chain = false.
Proof. vm_compute. split; reflexivity. Qed.

(** C6 does not hold in the code at difficulty 0: the mining loop does not
    run once, and the genesis block of a new ledger keeps the empty hash
    of the candidate, which is not the digest of its fields. *)
Theorem difficulty_zero_genesis_has_no_digest :
  exists w',
    new_Blockchain zero_env 10 (world [] [] [1700000600000%Z] [])
      = (Ret {| chain := [genesisBlock zero_env 1700000600000];
                difficulty := 0 |}, w') /\
    hash (genesisBlock zero_env 1700000600000) = EmptyString /\
    calculateHash (genesisBlock zero_env 1700000600000)
      = "781f662d6584235e9392634ad5b2b7fec53e7572d2222572af8bba2a131859ae".
Proof.
  eexists. split; [vm_compute; reflexivity|].
  vm_compute. split; reflexivity.
Qed.

(** C7 does not hold in the code at difficulty 0: a fresh ledger with one
    appended payload has two blocks with indices 0 and 1, and
    [isChainValid] rejects it, the appended block having the empty
    hash. *)
Theorem difficulty_zero_fresh_chain_invalid :
  exists bc w',
    fresh_ledger zero_env 10 [sample_vote]
      (world [] [] [1700000600000; 1700000600050]%Z []) = (Ret bc, w') /\
    map index (chain bc) = [0; 1]%Z /\
    map hash (chain bc) = [EmptyString; EmptyString] /\
    isChainValid (chain bc) = false.
Proof.
  do 2 eexists. split; [vm_compute; reflexivity|].
  vm_compute. repeat split.
Qed.

(** A fresh ledger at the default difficulty: the genesis block and one
    appended vote. *)
Example fresh_ledger_one_vote :
  exists w',
    fresh_ledger default_env 10 [sample_vote] world_fresh
      = (Ret {| chain := [fresh_genesis; fresh_vote]; difficulty := 2 |}, w').
Proof. eexists. vm_compute. reflexivity. Qed.

(** C9 at work: the genesis block of that chain with another message and
    another timestamp, the stored hash kept. *)
Lemma genesis_tampering_undetected_witness :
  isChainValid
    (<[0%nat := {| index := 0; timestamp := 0;
                   data := Genesis "another beginning";
                   previousHash := "0"; hash := hash fresh_genesis;
                   nonce := 4 |}]> [fresh_genesis; fresh_vote]) = true.
Proof.
  apply (genesis_tampering_undetected [fresh_genesis; fresh_vote] fresh_genesis).
  - reflexivity.
  - reflexivity.
  - vm_compute. reflexivity.
Defined.

(** C1 fails as stated.  A vote is recorded on an empty collection: the
    genesis block that the load made up is not stored, the collection
    holds the vote block alone, and a load puts this block of index 1 at
    the head of the chain.  With its candidate changed from 2 to 1 and the
    stored hash kept, the block no longer stores the digest of its
    fields, and [verifyBlockchain] still answers [valid: true]. *)
Lemma tampered_vote_at_the_head_of_a_loaded_chain_passes :
  exists w1 w2,
    recordVoteOnBlockchain default_env 10 "E1" 2 "U2" world_no_stored_genesis
      = (Ret {| success := true; transactionHash := Some (hash lone_vote);
                error := None |}, w1) /\
    blockchain_docs w1 = [("1", lone_vote)] /\
    index lone_vote = 1%Z /\
    mutate (SetData lone_vote_altered) lone_vote <> lone_vote /\
    hash (mutate (SetData lone_vote_altered) lone_vote) = hash lone_vote /\
    calculateHash (mutate (SetData lone_vote_altered) lone_vote)
      <> hash lone_vote /\
    verifyBlockchain default_env 10
      (set_blockchain_docs
         [("1", mutate (SetData lone_vote_altered) lone_vote)] w1)
      = (Ret {| valid := true; blockCount := 1 |}, w2).
Proof.
  do 2 eexists. split; [vm_compute; reflexivity|].
  split; [reflexivity|]. split; [reflexivity|].
  split; [discriminate|]. split; [reflexivity|].
  split; [vm_compute; discriminate|].
  vm_compute. reflexivity.
Qed.

(** C1 at work on the chain that a load gives for three stored blocks:
    the payload of the second vote replaced by one for candidate 2. *)
Lemma tampering_detected_past_the_first_position_witness :
  isChainValid
    (<[2%nat := mutate (SetData tampered_vote) second_vote]>
       [stored_genesis; first_vote; second_vote]) = false
  <-> (1 <= 2)%nat.
Proof.
  apply (tampering_detected_past_the_first_position
           [stored_genesis; first_vote; second_vote] 2 second_vote
           (SetData tampered_vote)).
  - vm_compute. reflexivity.
  - reflexivity.
  - intros Heq. discriminate Heq.
  - intros _. vm_compute. discriminate.
Defined.

(** *** Errors of the store *)





(** *** Voting twice *)

(** C10 fails as stated.  The same voter votes twice, and the store
    rejects the load of the second call.  Both calls return
    [success: true], but the second mines its block at index 1 on a
    genesis block made up for the occasion, and the write replaces the
    document of the first vote: the collection holds one vote block. *)
Lemma two_successes_one_vote_block :
  exists w1 w2,
    recordVoteOnBlockchain default_env 10 "E1" 1 "U1" world_second_load_rejected
      = (Ret {| success := true; transactionHash := Some (hash first_vote);
                error := None |}, w1) /\
    recordVoteOnBlockchain default_env 10 "E1" 1 "U1" w1
      = (Ret {| success := true;
                transactionHash := Some (hash overwriting_vote);
                error := None |}, w2) /\
    blockchain_docs w1 = [("0", stored_genesis); ("1", first_vote)] /\
    blockchain_docs w2 = [("0", stored_genesis); ("1", overwriting_vote)] /\
    overwriting_vote <> first_vote /\
    length (filter (fun b => is_election_vote "E1" b = true)
                   (blockchain_docs w2).*2) = 1%nat.
Proof.
  do 2 eexists. split; [vm_compute; reflexivity|].
  split; [vm_compute; reflexivity|].
  split; [reflexivity|]. split; [reflexivity|].
  split; [discriminate|]. vm_compute. reflexivity.
Qed.

(** C10 at work: the voter ["U1"] recorded twice for candidate 1 of
    ["E1"]; both blocks are in the collection afterwards. *)
Lemma same_voter_recorded_twice_witness :
  exists b1 b2 voteHash1 now1 voteHash2 now2,
    {| success := true; transactionHash := Some (hash first_vote);
       error := None |}
    = {| success := true; transactionHash := Some (hash b1); error := None |} /\
    {| success := true; transactionHash := Some (hash second_vote);
       error := None |}
    = {| success := true; transactionHash := Some (hash b2); error := None |} /\
    data b1 = VoteData (Vote.Make "VOTE" "E1" 1 (Digest "U1") voteHash1 now1) /\
    data b2 = VoteData (Vote.Make "VOTE" "E1" 1 (Digest "U1") voteHash2 now2) /\
    index b2 = (index b1 + 1)%Z /\
    previousHash b2 = hash b1 /\
    find_doc (pretty (index b1))
      [("0", stored_genesis); ("1", first_vote); ("2", second_vote)] = Some b1 /\
    find_doc (pretty (index b2))
      [("0", stored_genesis); ("1", first_vote); ("2", second_vote)] = Some b2.
Proof.
  eapply (same_voter_recorded_twice default_env 10 "E1" 1 "U1"
            world_two_votes _
            (world [("0", stored_genesis); ("1", first_vote)] []
                   [1700000160322; 1700000160327; 1700000160328;
                    1700000160344]%Z [])
            _
            (world [("0", stored_genesis); ("1", first_vote);
                    ("2", second_vote)] [] [] [])).
  - apply Forall_nil_2.
  - vm_compute. reflexivity.
  - vm_compute. reflexivity.
Defined.

(** The voting screen used twice by the same voter.  The first use casts
    the vote; the second appends a second vote block and only then is
    refused by [castVote].  The ledger then shows two votes for candidate
    1 where the election document counts one. *)
Example voting_screen_used_twice :
  exists w1 w2 votes w3,
    handleCastVote default_env 10 "E1" 1 "U1" world_voting_screen
      = (Ret VoteCastSuccessfully, w1) /\
    handleCastVote default_env 10 "E1" 1 "U1" w1
      = (Ret (AlertError "You have already voted in this election"), w2) /\
    getElectionVotes default_env 10 "E1" w2 = (Ret votes, w3) /\
    map vr_candidateId votes = [1; 1]%Z /\
    find_doc "E1" (elections w2)
      = Some {| candidates := CandidateMap {[ 0%Z := 1%Z ]};
                voters := ["U1"] |}.
Proof.
  do 4 eexists.
  split; [vm_compute; reflexivity|].
  split; [vm_compute; reflexivity|].
  split; [vm_compute; reflexivity|].
  split; vm_compute; reflexivity.
Qed.

(** *** The further properties at work *)

Lemma mineBlock_keeps_fields_and_settles_witness :
  index stored_genesis = index (genesisBlock default_env 1700000000019) /\
  timestamp stored_genesis = timestamp (genesisBlock default_env 1700000000019) /\
  data stored_genesis = data (genesisBlock default_env 1700000000019) /\
  previousHash stored_genesis
    = previousHash (genesisBlock default_env 1700000000019) /\
  (nonce (genesisBlock default_env 1700000000019) <= nonce stored_genesis)%Z /\
  forall fuel', mineBlock 2 fuel' stored_genesis = Some stored_genesis.
Proof.
  apply (mineBlock_keeps_fields_and_settles 2 10).
  vm_compute. reflexivity.
Defined.

Lemma one_changed_field_changes_the_hashed_string_witness :
  preimage (mutate (SetData tampered_vote) fresh_vote) <> preimage fresh_vote /\
  preimage (set_hash "00" fresh_vote) = preimage fresh_vote.
Proof.
  apply (one_changed_field_changes_the_hashed_string
           (SetData tampered_vote) fresh_vote "00").
  intros Heq. discriminate Heq.
Defined.

Lemma digit_moved_from_previousHash_to_index_witness :
  {| index := 1; timestamp := 5; data := Genesis "x";
     previousHash := String (pretty_N_char (Z.to_N 2)) "3abc";
     hash := "h"; nonce := 0 |}
  <> {| index := 10 * 1 + 2; timestamp := 5; data := Genesis "x";
        previousHash := "3abc"; hash := "h"; nonce := 0 |} /\
  calculateHash
    {| index := 1; timestamp := 5; data := Genesis "x";
       previousHash := String (pretty_N_char (Z.to_N 2)) "3abc";
       hash := "h"; nonce := 0 |}
  = calculateHash
      {| index := 10 * 1 + 2; timestamp := 5; data := Genesis "x";
         previousHash := "3abc"; hash := "h"; nonce := 0 |}.
Proof.
  apply (digit_moved_from_previousHash_to_index 1 2 "3abc" 5 (Genesis "x") "h" 0);
    lia.
Defined.

Lemma isChainValid_snoc_witness :
  isChainValid ([fresh_genesis] ++ [fresh_vote]) = true <->
  isChainValid [fresh_genesis] = true /\
  hash fresh_vote = calculateHash fresh_vote /\
  previousHash fresh_vote = hash fresh_genesis.
Proof.
  apply (isChainValid_snoc [fresh_genesis] fresh_genesis fresh_vote).
  reflexivity.
Defined.

Lemma addBlock_extends_a_valid_chain_witness :
  exists self' w',
    addBlock 10 sample_vote {| chain := [fresh_genesis]; difficulty := 2 |}
      (world [] [] [1700000400420%Z] []) = (Ret (fresh_vote, self'), w') /\
    chain self' = [fresh_genesis; fresh_vote] /\
    difficulty self' = 2%nat /\
    isChainValid (chain self') = true /\
    data fresh_vote = sample_vote /\
    (exists latest, last [fresh_genesis] = Some latest /\
       index fresh_vote = (index latest + 1)%Z /\
       previousHash fresh_vote = hash latest) /\
    clock w' = tl [1700000400420%Z] /\ faults w' = tl [].
Proof.
  do 2 eexists. split; [vm_compute; reflexivity|].
  eapply (addBlock_extends_a_valid_chain 10 sample_vote
            {| chain := [fresh_genesis]; difficulty := 2 |}
            (world [] [] [1700000400420%Z] [])).
  - simpl. lia.
  - vm_compute. reflexivity.
  - vm_compute. reflexivity.
Defined.

Lemma loadFromFirebase_never_throws_never_writes_witness :
  exists r w',
    loadFromFirebase default_env 10 {| chain := []; difficulty := 2 |}
      world_three_blocks = (r, w') /\
    (forall msg, r <> Throw msg) /\
    blockchain_docs w' = blockchain_docs world_three_blocks /\
    elections w' = elections world_three_blocks /\
    transactions w' = transactions world_three_blocks /\
    faults w' = tl (faults world_three_blocks) /\
    forall bc, r = Ret bc -> chain bc <> [] /\ difficulty bc = 2%nat.
Proof.
  do 2 eexists. split; [vm_compute; reflexivity|].
  eapply (loadFromFirebase_never_throws_never_writes default_env 10
            {| chain := []; difficulty := 2 |} world_three_blocks).
  vm_compute. reflexivity.
Defined.




Lemma initializeBlockchain_leaves_a_collection_alone_witness :
  initializeBlockchain default_env 10 world_three_blocks =
  (Ret {| init_success := true;
          init_message := Some "Blockchain already initialized";
          init_error := None |}, next_fault world_three_blocks).
Proof.
  apply (initializeBlockchain_leaves_a_collection_alone default_env 10
           world_three_blocks).
  - intros msg. discriminate.
  - discriminate.
Defined.

Lemma initializeBlockchain_reports_a_rejected_query_witness :
  initializeBlockchain default_env 10 world_load_rejected =
  (Ret {| init_success := false; init_message := None;
          init_error := Some "unavailable" |}, next_fault world_load_rejected).
Proof.
  apply (initializeBlockchain_reports_a_rejected_query default_env 10
           world_load_rejected "unavailable").
  reflexivity.
Defined.




Lemma fresh_ledger_grows_as_appended_witness :
  exists bc w',
    fresh_ledger default_env 10 [sample_vote] world_fresh = (Ret bc, w') /\
    length (chain bc) = 2%nat /\
    (forall j b, chain bc !! j = Some b -> index b = Z.of_nat j) /\
    (forall j cur prev, chain bc !! S j = Some cur -> chain bc !! j = Some prev ->
       previousHash cur = hash prev) /\
    map data (tail (chain bc)) = [sample_vote] /\
    ((1 <= ENV.difficulty default_env)%nat -> isChainValid (chain bc) = true).
Proof.
  do 2 eexists. split; [vm_compute; reflexivity|].
  eapply (fresh_ledger_grows_as_appended default_env 10 [sample_vote] world_fresh).
  vm_compute. reflexivity.
Defined.

Lemma castVote_refuses_a_voter_on_record_witness :
  castVote "E1" 2 "U1" "abc" (world_election election_voted []) =
  (Ret (CastError "You have already voted in this election"),
   next_fault (world_election election_voted [])).
Proof.
  apply (castVote_refuses_a_voter_on_record "E1" 2 "U1" "abc"
           (world_election election_voted []) election_voted).
  - intros msg. discriminate.
  - reflexivity.
  - apply list_elem_of_singleton. reflexivity.
Defined.

Lemma castVote_election_not_found_witness :
  castVote "E2" 1 "U1" "abc" (world_election election_open []) =
  (Ret (CastError "Election not found"),
   next_fault (world_election election_open [])).
Proof.
  apply (castVote_election_not_found "E2" 1 "U1" "abc"
           (world_election election_open [])).
  - intros msg. discriminate.
  - reflexivity.
Defined.

Lemma castVote_reports_a_rejected_read_witness :
  castVote "E1" 1 "U1" "abc" (world_election election_open [Some "unavailable"]) =
  (Ret (CastError "unavailable"),
   next_fault (world_election election_open [Some "unavailable"])).
Proof.
  apply (castVote_reports_a_rejected_read "E1" 1 "U1" "abc"
           (world_election election_open [Some "unavailable"]) "unavailable").
  reflexivity.
Defined.

Lemma castVote_counts_one_vote_witness :
  exists w' electionData',
    castVote "E1" 1 "U1" "abc" (world_election election_open [])
      = (Ret CastSuccess, w') /\
    find_doc "E1" (elections w') = Some electionData' /\
    candidate_voteCount (candidates electionData') (1 - 1) = Some (0 + 1)%Z /\
    (forall k, k <> (1 - 1)%Z ->
       candidate_voteCount (candidates electionData') k =
       match candidates election_open with
       | CandidateArray _ => None
       | CandidateMap counts => counts !! k
       end) /\
    voters electionData' = (voters election_open ++ ["U1"])%list /\
    (forall other, other <> "E1" ->
       find_doc other (elections w')
       = find_doc other (elections (world_election election_open []))) /\
    transactions w' =
      (transactions (world_election election_open []) ++
       [{| tx_electionId := "E1"; tx_candidateId := 1;
           tx_voterId := "U1"; tx_voteHash := "abc";
           tx_timestamp := hd 0%Z (clock (world_election election_open [])) |}])%list /\
    blockchain_docs w' = blockchain_docs (world_election election_open []).
Proof.
  apply (castVote_counts_one_vote "E1" 1 "U1" "abc"
           (world_election election_open []) election_open 0).
  - apply Forall_nil_2.
  - reflexivity.
  - apply not_elem_of_nil.
  - reflexivity.
Defined.

Lemma castVote_unknown_candidate_leaves_a_transaction_witness :
  exists message w',
    castVote "E1" 3 "U1" "abc" (world_election election_open [])
      = (Ret (CastError message), w') /\
    elections w' = elections (world_election election_open []) /\
    transactions w' =
      (transactions (world_election election_open []) ++
       [{| tx_electionId := "E1"; tx_candidateId := 3;
           tx_voterId := "U1"; tx_voteHash := "abc";
           tx_timestamp := hd 0%Z (clock (world_election election_open [])) |}])%list.
Proof.
  apply (castVote_unknown_candidate_leaves_a_transaction "E1" 3 "U1" "abc"
           (world_election election_open []) election_open).
  - apply Forall_nil_2.
  - reflexivity.
  - apply not_elem_of_nil.
  - reflexivity.
Defined.

Lemma castVote_at_most_once_witness :
  exists w',
    castVote "E1" 1 "U1" "abc" (world_election election_open [])
      = (Ret CastSuccess, w') /\
    castVote "E1" 2 "U1" "def" w' =
    (Ret (CastError "You have already voted in this election"), next_fault w').
Proof.
  apply (castVote_at_most_once "E1" 1 "U1" "abc"
           (world_election election_open []) election_open 0 2 "def").
  - apply Forall_nil_2.
  - reflexivity.
  - apply not_elem_of_nil.
  - reflexivity.
Defined.

Lemma castVote_first_vote_drops_the_other_candidates_witness :
  exists w' message w'',
    castVote "E1" 1 "U1" "abc" (world_election election_open [])
      = (Ret CastSuccess, w') /\
    castVote "E1" 2 "U2" "def" w' = (Ret (CastError message), w'') /\
    elections w'' = elections w' /\
    find_doc "E1" (elections w'')
      = Some {| candidates := CandidateMap {[ (1 - 1)%Z := (0 + 1)%Z ]};
                voters := [] ++ ["U1"] |} /\
    transactions w'' =
      (transactions (world_election election_open []) ++
       [{| tx_electionId := "E1"; tx_candidateId := 1;
           tx_voterId := "U1"; tx_voteHash := "abc";
           tx_timestamp := hd 0%Z (clock (world_election election_open [])) |};
        {| tx_electionId := "E1"; tx_candidateId := 2;
           tx_voterId := "U2"; tx_voteHash := "def";
           tx_timestamp :=
             hd 0%Z (tl (clock (world_election election_open []))) |}])%list.
Proof.
  apply (castVote_first_vote_drops_the_other_candidates "E1" 1 "U1" "abc"
           (world_election election_open []) [0; 0]%Z [] 0 2 "U2" "def").
  - apply Forall_nil_2.
  - reflexivity.
  - apply not_elem_of_nil.
  - reflexivity.
  - apply not_elem_of_nil.
  - discriminate.
  - lia.
Defined.

Lemma handleCastVote_checks_after_the_block_is_stored_witness :
  exists alert w',
    handleCastVote default_env 10 "E1" 1 "U1" (world_election election_voted [])
      = (Ret alert, w') /\
    alert = AlertError "You have already voted in this election" /\
    elections w' = elections (world_election election_voted []) /\
    transactions w' = transactions (world_election election_voted []) /\
    exists b voteHash now,
      blockchain_docs w' =
        upsert (pretty (index b)) b
          (blockchain_docs (world_election election_voted [])) /\
      data b = VoteData (Vote.Make "VOTE" "E1" 1 (Digest "U1") voteHash now) /\
      (forall x, x ∈ (blockchain_docs (world_election election_voted [])).*2 ->
         (index x < index b)%Z).
Proof.
  do 2 eexists. split; [vm_compute; reflexivity|].
  eapply (handleCastVote_checks_after_the_block_is_stored default_env 10
            "E1" 1 "U1" (world_election election_voted []) election_voted).
  - lia.
  - apply Forall_nil_2.
  - reflexivity.
  - apply list_elem_of_singleton. reflexivity.
  - vm_compute. reflexivity.
Defined.

Lemma verifyVoteCounts_ignores_unlisted_candidates_witness :
  verifyVoteCounts
    [{| id := 1; name := "A"; info := "a"; voteCount := 1 |}]
    ([{| blockIndex := 1; blockHash := "00aa"; vr_candidateId := 1;
         vr_timestamp := 5; vr_voteHash := "v1" |}] ++
     {| blockIndex := 2; blockHash := "00bb"; vr_candidateId := 7;
        vr_timestamp := 6; vr_voteHash := "v2" |} :: []) =
  verifyVoteCounts
    [{| id := 1; name := "A"; info := "a"; voteCount := 1 |}]
    ([{| blockIndex := 1; blockHash := "00aa"; vr_candidateId := 1;
         vr_timestamp := 5; vr_voteHash := "v1" |}] ++ []).
Proof.
  apply (verifyVoteCounts_ignores_unlisted_candidates
           [{| id := 1; name := "A"; info := "a"; voteCount := 1 |}]
           [{| blockIndex := 1; blockHash := "00aa"; vr_candidateId := 1;
               vr_timestamp := 5; vr_voteHash := "v1" |}]
           {| blockIndex := 2; blockHash := "00bb"; vr_candidateId := 7;
              vr_timestamp := 6; vr_voteHash := "v2" |} []).
  intros c Hc. apply list_elem_of_singleton in Hc. subst c. simpl. lia.
Defined.

Lemma verifyVoteCounts_order_of_votes_witness :
  verifyVoteCounts
    [{| id := 1; name := "A"; info := "a"; voteCount := 1 |};
     {| id := 2; name := "B"; info := "b"; voteCount := 1 |}]
    [{| blockIndex := 1; blockHash := "00aa"; vr_candidateId := 1;
        vr_timestamp := 5; vr_voteHash := "v1" |};
     {| blockIndex := 2; blockHash := "00bb"; vr_candidateId := 2;
        vr_timestamp := 6; vr_voteHash := "v2" |}] =
  verifyVoteCounts
    [{| id := 1; name := "A"; info := "a"; voteCount := 1 |};
     {| id := 2; name := "B"; info := "b"; voteCount := 1 |}]
    [{| blockIndex := 2; blockHash := "00bb"; vr_candidateId := 2;
        vr_timestamp := 6; vr_voteHash := "v2" |};
     {| blockIndex := 1; blockHash := "00aa"; vr_candidateId := 1;
        vr_timestamp := 5; vr_voteHash := "v1" |}].
Proof.
  apply (verifyVoteCounts_order_of_votes
           [{| id := 1; name := "A"; info := "a"; voteCount := 1 |};
            {| id := 2; name := "B"; info := "b"; voteCount := 1 |}]).
  apply perm_swap.
Defined.
